(** * Israel News Module: ingestion and orchestration core

    A shallow embedding of the parts of [israel-news-module] that the
    specification talks about:

    - [processor/summarizer.py]: [NewsProcessor.categorize_article],
      [summarize_article], [process_article], [process_batch];
    - [ingestor/scraper.py]: [NewsScraper._rate_limit], the URL
      de-duplication loop of [fetch_by_category] / [fetch_all_sectors],
      [fetch_from_website];
    - [pipeline.py]: [NewsPipeline.run_ingestor], [run_processor],
      [run_asset_automator], [save_to_database], [run_full_pipeline].

    Python text is modelled by Rocq strings of 8-bit characters; the
    embedding of [str.lower] is the ASCII one.  Sets of URLs are [gset string],
    dictionaries whose iteration order matters are association lists. *)

From Stdlib Require Import ZArith Ascii String.
From stdpp Require Import base decidable option list strings gmap sets.

Local Open Scope string_scope.
Local Open Scope list_scope.

(** ** Python text primitives *)

Module Text.

(** [c.lower()] on one ASCII character. *)
Definition lower_ascii (c : ascii) : ascii :=
  let n := nat_of_ascii c in
  if (65 <=? n)%nat && (n <=? 90)%nat then ascii_of_nat (n + 32) else c.

(** [s.lower()] *)
Fixpoint lower (s : string) : string :=
  match s with
  | EmptyString => EmptyString
  | String c s' => String (lower_ascii c) (lower s')
  end.

(** [s.startswith(p)] *)
Fixpoint startswith (p s : string) : bool :=
  match p, s with
  | EmptyString, _ => true
  | String _ _, EmptyString => false
  | String a p', String b s' => bool_decide (a = b) && startswith p' s'
  end.

(** [k in s] for two strings: [k] occurs in [s] at some offset. *)
Fixpoint contains (k s : string) : bool :=
  startswith k s ||
  match s with
  | EmptyString => false
  | String _ s' => contains k s'
  end.

(** Python truthiness of a string: non-empty. *)
Definition nonempty (s : string) : bool :=
  match s with EmptyString => false | String _ _ => true end.

(** The declarative reading of "keyword occurs as a substring of text". *)
Definition occurs_in (k s : string) : Prop :=
  ∃ pre post, s = pre +:+ k +:+ post.

End Text.

(** ** Python values and exceptions *)

(** A text-valued dictionary entry: the key is missing, holds [None]
    (a JSON [null]) or holds a string. *)
Inductive field := Absent | Null | Str (s : string).

(** The value of the [source] key: NewsAPI sends an object with a [name];
    the feed and web-page fetchers of the scraper store a plain string. *)
Inductive source_field :=
  | SrcAbsent
  | SrcNull
  | SrcStr (s : string)
  | SrcDict (name : field).

(** A Python value that is either [None] or a [str]. *)
Abbreviation pyval := (option string).

(** [d.get(k, default)] *)
Definition get_or (default : string) (f : field) : pyval :=
  match f with
  | Absent => Some default
  | Null => None
  | Str s => Some s
  end.

(** [d.get(k)] *)
Definition get (f : field) : pyval :=
  match f with
  | Str s => Some s
  | Absent | Null => None
  end.

(** Truthiness of [None] / [str]. *)
Definition truthy (v : pyval) : bool :=
  match v with
  | Some s => Text.nonempty s
  | None => false
  end.

(** [str(v)], as used by f-string interpolation. *)
Definition py_str (v : pyval) : string :=
  match v with
  | Some s => s
  | None => "None"
  end.

(** [v or ''] *)
Definition or_empty (v : pyval) : string :=
  match v with
  | Some s => s
  | None => ""
  end.

Inductive exn :=
  | AttributeError
  | OtherError (msg : string).

Inductive result (A : Type) :=
  | Ok (a : A)
  | Raise (e : exn).
Arguments Ok {A} a.
Arguments Raise {A} e.

(** ** Raw articles

    A raw article dictionary, with the keys the program reads: the NewsAPI
    keys, plus the [sector] tag and the [external_id] that the ingestor may
    attach. *)
Record Article := {
  title : field;
  description : field;
  content : field;
  url : field;
  urlToImage : field;
  publishedAt : field;
  source : source_field;
  sector : field;
  external_id : field
}.

(** The article with its [sector] entry replaced. *)
Definition with_sector (f : field) (a : Article) : Article :=
  {| title := title a; description := description a; content := content a;
     url := url a; urlToImage := urlToImage a; publishedAt := publishedAt a;
     source := source a; sector := f; external_id := external_id a |}.

(** [article['sector'] = s] *)
Definition set_sector (s : string) (a : Article) : Article :=
  with_sector (Str s) a.

(** ** processor/summarizer.py *)

Module Processor.

(** [self.sector_keywords], in declaration (= iteration) order. *)
Definition sector_keywords : list (string * list string) :=
  [ ("farming", ["agriculture"; "farming"; "farmers"; "crops"; "livestock";
                 "agtech"; "agricultural"]);
    ("tech", ["technology"; "tech"; "startup"; "innovation"; "AI";
              "cybersecurity"; "software"; "digital"]);
    ("politics", ["politics"; "government"; "Knesset"; "election"; "policy";
                  "minister"; "parliament"]);
    ("hospitality", ["hotel"; "tourism"; "restaurant"; "hospitality"; "travel";
                     "accommodation"]) ].

(** [any(keyword in text for keyword in keywords)] *)
Fixpoint any_keyword_in (text : string) (keywords : list string) : bool :=
  match keywords with
  | [] => false
  | keyword :: rest => Text.contains keyword text || any_keyword_in text rest
  end.

(** The [for sector, keywords in ...items()] loop with its early [return]. *)
Fixpoint first_sector (text : string) (sectors : list (string * list string))
  : option string :=
  match sectors with
  | [] => None
  | (sector, keywords) :: rest =>
      if any_keyword_in text keywords then Some sector
      else first_sector text rest
  end.

(** [text = f"{title} {description or ''}".lower()] *)
Definition categorize_text (title description : pyval) : string :=
  Text.lower (py_str title +:+ " " +:+ or_empty description).

Definition categorize_article_with (config : list (string * list string))
    (title description : pyval) : string :=
  default "general" (first_sector (categorize_text title description) config).

Definition categorize_article (title description : pyval) : string :=
  categorize_article_with sector_keywords title description.

(** The router as the specification words it: the lowered text is the plain
    concatenation of title and description. *)
Definition categorize_spec (config : list (string * list string))
    (title description : string) : string :=
  default "general" (first_sector (Text.lower (title +:+ description)) config).

(** The dictionary returned by [summarize_article]. *)
Record Summary := {
  bullets : list string;
  sentiment : string;
  importance : string;
  success : bool
}.

(** The dictionary returned by [process_article]. *)
Record ProcessedArticle := {
  p_id : pyval;
  p_title : pyval;
  p_description : pyval;
  p_url : pyval;
  p_image_url : pyval;
  p_published_at : pyval;
  p_source : pyval;
  p_category : string;
  p_summary : list string;
  p_sentiment : string;
  p_importance : string;
  p_processed_at : string
}.

(** What the chat-completion call does: raise, or answer with some text. *)
Inductive completion :=
  | ApiError (msg : string)
  | Reply (text : string).

(** What [json.loads] makes of the answer: a decode error, a JSON object
    (with the three keys the code looks up, each possibly missing), or some
    other JSON value, on which [.get] raises. *)
Inductive parsed :=
  | NotJson
  | JsonObject (bullets : option (list string)) (sentiment importance : option string)
  | JsonOther.

(** Everything outside the program that one call of [process_article]
    observes: the language model (sampled at temperature 0.7, so two calls
    need not agree) and the clock read by [datetime.now()]. *)
Record Env := {
  chat : string -> completion;
  now_iso : string
}.

Section WithLibraries.

(** [hashlib.sha256(s.encode('utf-8')).hexdigest()] and [json.loads] are
    library functions; only their being functions matters here. *)
Variable sha256_hexdigest : string -> string.
Variable json_loads : string -> parsed.

(** The article text placed inside the prompt template. *)
Definition summary_text (title description content : pyval) : string :=
  ("Title: " +:+ py_str title +:+ String "010"%char "")
  +:+ (if truthy description
       then "Description: " +:+ or_empty description +:+ String "010"%char ""
       else "")
  +:+ (if truthy content
       then "Content: " +:+ String.substring 0 1000 (or_empty content)
       else "").

Definition summary_failure : Summary :=
  {| bullets := []; sentiment := "neutral"; importance := "medium";
     success := false |}.

Definition summarize_article (env : Env) (title description content : pyval)
  : Summary :=
  match chat env (summary_text title description content) with
  | ApiError _ => summary_failure
  | Reply answer =>
      match json_loads answer with
      | JsonObject b s i =>
          {| bullets := default [] b; sentiment := default "neutral" s;
             importance := default "medium" i; success := true |}
      | NotJson =>
          {| bullets := [answer]; sentiment := "neutral";
             importance := "medium"; success := true |}
      | JsonOther => summary_failure
      end
  end.

(** [article.get('source', {}).get('name', '')] *)
Definition source_name (s : source_field) : result pyval :=
  match s with
  | SrcAbsent => Ok (Some "")
  | SrcDict name => Ok (get_or "" name)
  | SrcNull | SrcStr _ => Raise AttributeError
  end.

Definition process_article (env : Env) (article : Article)
  : result ProcessedArticle :=
  let title := get_or "" (title article) in
  let description := get_or "" (description article) in
  let content := get_or "" (content article) in
  let category := categorize_article title description in
  let summary := summarize_article env title description content in
  let id := if truthy (get (url article))
            then Some (sha256_hexdigest (or_empty (get_or "" (url article))))
            else None in
  match source_name (source article) with
  | Raise e => Raise e
  | Ok name =>
      Ok {| p_id := id;
            p_title := title;
            p_description := description;
            p_url := get_or "" (url article);
            p_image_url := get_or "" (urlToImage article);
            p_published_at := get_or "" (publishedAt article);
            p_source := name;
            p_category := category;
            p_summary := bullets summary;
            p_sentiment := sentiment summary;
            p_importance := importance summary;
            p_processed_at := now_iso env |}
  end.

(** [process_batch]: the i-th article is processed in the environment
    [envs i]; an article whose processing raises is skipped. *)
Fixpoint process_batch_from (envs : nat -> Env) (i : nat) (articles : list Article)
  : list ProcessedArticle :=
  match articles with
  | [] => []
  | article :: rest =>
      match process_article (envs i) article with
      | Ok processed => processed :: process_batch_from envs (S i) rest
      | Raise _ => process_batch_from envs (S i) rest
      end
  end.

Definition process_batch (envs : nat -> Env) (articles : list Article)
  : list ProcessedArticle :=
  process_batch_from envs 0 articles.

(** An article shaped as NewsAPI sends it: [source] is an object (or the key
    is missing altogether). *)
Definition newsapi_shaped (a : Article) : Prop :=
  match source a with
  | SrcAbsent | SrcDict _ => True
  | SrcNull | SrcStr _ => False
  end.

End WithLibraries.

End Processor.

(** ** ingestor/scraper.py *)

Module Scraper.

(** *** Time

    Instants and durations are integers, in microseconds (the resolution of
    [datetime]).  The world holds the one physical clock; [time.time()] reads
    it as UTC, [datetime.now()] as naive local time.  Executing code takes no
    time: the clock moves only in [time.sleep] and between calls. *)

Definition second : Z := 1000000.
Definition day : Z := 86400 * second.

Record World := {
  clock : Z;
  utc_offset : Z;
  slept : list Z      (* the arguments of the [time.sleep] calls so far *)
}.

Definition time_time (w : World) : Z := clock w.

Definition datetime_now (w : World) : Z := (clock w + utc_offset w)%Z.

Definition time_sleep (d : Z) (w : World) : World :=
  {| clock := clock w + d; utc_offset := utc_offset w; slept := slept w ++ [d] |}.

(** Time passing between two calls of the program. *)
Definition elapse (d : Z) (w : World) : World :=
  {| clock := clock w + d; utc_offset := utc_offset w; slept := slept w |}.

(** [t.replace(hour=0, minute=0, second=0)]: the microsecond field stays. *)
Definition replace_hms0 (t : Z) : Z := (t - t `mod` day + t `mod` second)%Z.

(** [(a - b).days] *)
Definition delta_days (a b : Z) : Z := ((a - b) `div` day)%Z.

(** *** Rate limiting *)

(** The rate-limiting attributes of a [NewsScraper]. *)
Record Limiter := {
  request_delay : Z;
  last_request_time : Z;
  daily_request_count : Z;
  daily_reset_time : Z;
  max_daily_requests : Z
}.

(** The attributes as [__init__] sets them. *)
Definition new_limiter (w : World) : Limiter :=
  {| request_delay := 1 * second;
     last_request_time := 0;
     daily_request_count := 0;
     daily_reset_time := datetime_now w;
     max_daily_requests := 100 |}.

Definition reset_counter (reset_time : Z) (s : Limiter) : Limiter :=
  {| request_delay := request_delay s;
     last_request_time := last_request_time s;
     daily_request_count := 0;
     daily_reset_time := reset_time;
     max_daily_requests := max_daily_requests s |}.

Definition record_request (t : Z) (s : Limiter) : Limiter :=
  {| request_delay := request_delay s;
     last_request_time := t;
     daily_request_count := daily_request_count s + 1;
     daily_reset_time := daily_reset_time s;
     max_daily_requests := max_daily_requests s |}.

(** "Check if we need to reset daily counter" *)
Definition check_daily_reset (now : Z) (s : Limiter) : Limiter :=
  if (1 <=? delta_days now (daily_reset_time s))%Z
  then reset_counter now s
  else s.

(** "Check daily limit" *)
Definition check_daily_limit (now : Z) (w : World) (s : Limiter)
  : World * Limiter :=
  if (max_daily_requests s <=? daily_request_count s)%Z then
    let wait_time := (replace_hms0 (datetime_now w) + 1 * day - now)%Z in
    let w := time_sleep wait_time w in
    (w, reset_counter (datetime_now w) s)
  else (w, s).

(** "Apply request delay" and record the request. *)
Definition apply_request_delay (w : World) (s : Limiter) : World * Limiter :=
  let current_time := time_time w in
  let time_since_last := (current_time - last_request_time s)%Z in
  let w := if (time_since_last <? request_delay s)%Z
           then time_sleep (request_delay s - time_since_last) w
           else w in
  (w, record_request (time_time w) s).

Definition _rate_limit (w : World) (s : Limiter) : World * Limiter :=
  let now := datetime_now w in
  let s := check_daily_reset now s in
  let '(w, s) := check_daily_limit now w s in
  apply_request_delay w s.

(** A sequence of [_rate_limit] calls, the i-th one made [gaps !! i]
    microseconds after the previous one returned.  The result lists the
    attributes as each call left them. *)
Fixpoint acquire_all (gaps : list Z) (w : World) (s : Limiter) : list Limiter :=
  match gaps with
  | [] => []
  | gap :: rest =>
      let '(w, s) := _rate_limit (elapse gap w) s in
      s :: acquire_all rest w s
  end.

(** The instants at which the calls returned and the fetches went out. *)
Definition request_times (gaps : list Z) (w : World) (s : Limiter) : list Z :=
  last_request_time <$> acquire_all gaps w s.

(** The number of instants of [times] inside the 24 hours that begin at
    [start]. *)
Definition requests_in_window (start : Z) (times : list Z) : nat :=
  length (filter (λ t, (start ≤ t < start + day)%Z) times).

(** Whether a call made in world [w] with attributes [s] executes one of the
    two assignments [self.daily_request_count = 0]: a day or more has passed
    since [daily_reset_time], or the counter has reached
    [max_daily_requests]. *)
Definition resets (w : World) (s : Limiter) : bool :=
  (1 <=? delta_days (datetime_now w) (daily_reset_time s))%Z
  || (max_daily_requests s <=? daily_request_count s)%Z.

(** [acquire_all], each call marked with whether it reset the counter. *)
Fixpoint acquire_trace (gaps : list Z) (w : World) (s : Limiter)
  : list (bool * Limiter) :=
  match gaps with
  | [] => []
  | gap :: rest =>
      let '(w', s') := _rate_limit (elapse gap w) s in
      (resets (elapse gap w) s, s') :: acquire_trace rest w' s'
  end.

(** *** De-duplication by URL

    The loop that ends [fetch_by_category], and that [fetch_all_sectors]
    runs once per sector:
<<
    seen_urls = set()
    unique_articles = []
    for article in articles:
        url = article.get('url', '')
        if url and url not in seen_urls:
            seen_urls.add(url)
            unique_articles.append(article)
>> *)

Definition dedupe_step (acc : gset string * list Article) (article : Article)
  : gset string * list Article :=
  let '(seen_urls, unique_articles) := acc in
  let url := get_or "" (url article) in
  if truthy url && bool_decide (or_empty url ∉ seen_urls)
  then ({[ or_empty url ]} ∪ seen_urls, unique_articles ++ [article])
  else acc.

Definition dedupe (articles : list Article) : list Article :=
  snd (fold_left dedupe_step articles (∅, [])).

(** The url under which the loop files an article ([""] when it has none). *)
Definition url_key (a : Article) : string := or_empty (get_or "" (url a)).

(** Whether the loop, having seen [seen], keeps the article. *)
Definition keeps (seen : gset string) (a : Article) : bool :=
  truthy (get_or "" (url a)) && bool_decide (url_key a ∉ seen).

(** The loop as a recursion from the front of the list. *)
Fixpoint dedupe_from (seen : gset string) (articles : list Article)
  : list Article :=
  match articles with
  | [] => []
  | a :: rest =>
      if keeps seen a then a :: dedupe_from ({[ url_key a ]} ∪ seen) rest
      else dedupe_from seen rest
  end.

(** The set of seen urls once the loop has gone through [articles]. *)
Fixpoint seen_after (seen : gset string) (articles : list Article) : gset string :=
  match articles with
  | [] => seen
  | a :: rest =>
      seen_after (if keeps seen a then {[ url_key a ]} ∪ seen else seen) rest
  end.

(** The identity key the specification describes: the url if non-empty,
    else the external id. *)
Definition identity_key (a : Article) : string :=
  if truthy (get_or "" (url a)) then or_empty (get_or "" (url a))
  else or_empty (get_or "" (external_id a)).

(** De-duplication as the specification words it, on [identity_key]. *)
Definition dedupe_spec_step (acc : gset string * list Article) (article : Article)
  : gset string * list Article :=
  let '(seen, unique) := acc in
  let key := identity_key article in
  if Text.nonempty key && bool_decide (key ∉ seen)
  then ({[ key ]} ∪ seen, unique ++ [article])
  else acc.

Definition dedupe_spec (articles : list Article) : list Article :=
  snd (fold_left dedupe_spec_step articles (∅, [])).

Section Fetching.

(** [fetch_from_newsapi(query=...)], as a function of the query: what the
    network returned ([[]] after a request or decoding error). *)
Variable fetch_from_newsapi : string -> list Article.

(** [self.feeds_config['sectors'][category]['search_queries']], when
    configured. *)
Variable search_queries : string -> option (list string).

Definition fetch_by_category (category : string) : list Article :=
  let queries := default ["Israel " +:+ category] (search_queries category) in
  let articles :=
    flat_map (λ query, set_sector category <$> fetch_from_newsapi query)
             (take 3 queries) in
  dedupe articles.

End Fetching.

(** *** Generic web pages *)

(** An element of the parsed page: its tag name, [get_text(strip=True)] and
    its [href] attribute, if it has one. *)
Record Tag := {
  tag_name : string;
  tag_text : string;
  tag_href : option string
}.

(** The parsed page: [soup.title] (and its [.string], which may be [None]),
    and for each element of [soup.find_all('article')] its descendant
    elements in document order. *)
Record Page := {
  page_title : option pyval;
  page_articles : list (list Tag)
}.

(** A dictionary appended by [fetch_from_website]. *)
Record ScrapedArticle := {
  s_title : string;
  s_description : string;
  s_content : string;
  s_url : string;
  s_image_url : string;
  s_published_at : string;
  s_source : pyval
}.

(** [article_elem.find(['h1', 'h2', 'h3', 'a'])] *)
Definition find_title_elem (article_elem : list Tag) : option Tag :=
  List.find (λ t, bool_decide (tag_name t ∈ ["h1"; "h2"; "h3"; "a"])) article_elem.

(** [article_elem.find('a', href=True)] *)
Definition find_link_elem (article_elem : list Tag) : option Tag :=
  List.find (λ t, bool_decide (tag_name t = "a") && bool_decide (is_Some (tag_href t)))
            article_elem.

Definition candidate_title (article_elem : list Tag) : string :=
  match find_title_elem article_elem with
  | Some title_elem => tag_text title_elem
  | None => ""
  end.

(** The link before it is made absolute. *)
Definition candidate_href (article_elem : list Tag) : string :=
  match find_title_elem article_elem with
  | Some title_elem =>
      if bool_decide (tag_name title_elem = "a")
      then default "" (tag_href title_elem)
      else match find_link_elem article_elem with
           | Some link_elem => default "" (tag_href link_elem)
           | None => ""
           end
  | None =>
      match find_link_elem article_elem with
      | Some link_elem => default "" (tag_href link_elem)
      | None => ""
      end
  end.

(** The elements that [find(['h1', 'h2', 'h3', 'a'])] and
    [find('a', href=True)] stop at. *)
Definition is_title_tag (t : Tag) : Prop :=
  tag_name t ∈ ["h1"; "h2"; "h3"; "a"].

Definition is_link_tag (t : Tag) : Prop :=
  tag_name t = "a" ∧ is_Some (tag_href t).

Section Website.

(** [urllib.parse.urljoin] *)
Variable urljoin : string -> string -> string.

Definition candidate_link (url : string) (article_elem : list Tag) : string :=
  let link := candidate_href article_elem in
  if Text.nonempty link && negb (Text.startswith "http" link)
  then urljoin url link
  else link.

Definition website_step (url : string) (page : Page)
    (articles : list ScrapedArticle) (article_elem : list Tag)
  : list ScrapedArticle :=
  let title := candidate_title article_elem in
  let link := candidate_link url article_elem in
  if Text.nonempty title && Text.nonempty link
  then articles ++
       [ {| s_title := title; s_description := ""; s_content := "";
            s_url := link; s_image_url := ""; s_published_at := "";
            s_source := match page_title page with
                        | Some title_string => title_string
                        | None => Some url
                        end |} ]
  else articles.

(** The body of the [try] once the page is parsed. *)
Definition scrape_page (url : string) (page : Page) : list ScrapedArticle :=
  fold_left (website_step url page) (take 20 (page_articles page)) [].

(** What one article element contributes, if anything. *)
Definition scrape_candidate (url : string) (page : Page) (article_elem : list Tag)
  : option ScrapedArticle :=
  match website_step url page [] article_elem with
  | [] => None
  | a :: _ => Some a
  end.

(** [fetch_from_website]: one [_rate_limit], then the request; [response]
    is [None] when the request raises a [RequestException]. *)
Definition fetch_from_website (w : World) (s : Limiter) (url : string)
    (response : option Page) : World * Limiter * list ScrapedArticle :=
  let '(w, s) := _rate_limit w s in
  match response with
  | Some page => (w, s, scrape_page url page)
  | None => (w, s, [])
  end.

End Website.

End Scraper.

(** ** pipeline.py *)

Module Pipeline.

Inductive level := ERROR | WARNING.

(** What [logger.error] and [logger.warning] wrote, oldest first. *)
Abbreviation log := (list (level * string)).

(** A dictionary with string keys, in insertion order. *)
Abbreviation dict V := (list (string * V)).

(** [d[k] = v]: an existing key keeps its place. *)
Fixpoint dict_set {V} (k : string) (v : V) (d : dict V) : dict V :=
  match d with
  | [] => [(k, v)]
  | (k', v') :: rest =>
      if bool_decide (k' = k) then (k, v) :: rest
      else (k', v') :: dict_set k v rest
  end.

(** [d[k]] updated in place by [f], for a key that is present. *)
Fixpoint dict_alter {V} (f : V -> V) (k : string) (d : dict V) : dict V :=
  match d with
  | [] => []
  | (k', v') :: rest =>
      if bool_decide (k' = k) then (k', f v') :: rest
      else (k', v') :: dict_alter f k rest
  end.

Definition default_categories : list string :=
  ["farming"; "tech"; "politics"; "hospitality"; "general"].

(** [categories or [...]] *)
Definition or_default (categories : list string) : list string :=
  match categories with
  | [] => default_categories
  | _ => categories
  end.

Record CategoryCounts := {
  raw_count : nat;
  processed_count : option nat     (* the key is set only for a non-empty category *)
}.

(** The dictionary built and returned by [run_full_pipeline]. *)
Record Results := {
  start_time : Z;
  categories : dict CategoryCounts;
  total_articles : nat;
  processed_articles : nat;
  saved_articles : nat;
  errors : list string;
  end_time : Z;
  duration_seconds : Z
}.

Section Run.

(** The article dictionaries that flow through the stages. *)
Context {A : Type}.

(** [article.get('category', 'general')] *)
Variable category_of : A -> string.

(** The database as [save_to_database] uses it: the category lookup returns
    the ids of the matching rows or raises; [insert_article], given the
    article with its [category_id] set, returns or raises. *)
Record Database := {
  execute_query : string -> result (list Z);
  insert_article : Z -> A -> result unit
}.

(** The four components; [None] when [_init_components] could not build
    one.  [fetch_by_category] may raise; [process_batch] and
    [process_article_images] handle their failures per article and return
    a list. *)
Record Components := {
  ingestor : option (string -> result (list A));
  processor : option (list A -> list A);
  uploader : option (list A -> list A);
  db : option Database
}.

Variable self : Components.

(** One turn of the [for category in categories] loop, with its [try]. *)
Definition ingest_step (fetch_by_category : string -> result (list A))
    (acc : dict (list A) * log) (category : string) : dict (list A) * log :=
  let '(all_articles, lg) := acc in
  match fetch_by_category category with
  | Ok articles => (dict_set category articles all_articles, lg)
  | Raise _ =>
      (dict_set category [] all_articles,
       lg ++ [(ERROR, "Error fetching " +:+ category)])
  end.

Definition run_ingestor (categories : list string) : dict (list A) * log :=
  match ingestor self with
  | None => ([], [(ERROR, "Ingestor not initialized")])
  | Some fetch_by_category =>
      fold_left (ingest_step fetch_by_category) (or_default categories) ([], [])
  end.

Definition run_processor (articles : list A) : list A * log :=
  match processor self with
  | None => (articles, [(WARNING, "Processor not initialized, returning raw articles")])
  | Some process_batch => (process_batch articles, [])
  end.

Definition run_asset_automator (articles : list A) : list A * log :=
  match uploader self with
  | None => (articles, [(WARNING, "Asset Automator not initialized, keeping original images")])
  | Some process_article_images => (process_article_images articles, [])
  end.

(** One turn of the [for article in articles] loop, with its [try]. *)
Definition save_step (d : Database) (acc : nat * log) (article : A) : nat * log :=
  let '(saved, lg) := acc in
  match execute_query d (category_of article) with
  | Raise _ => (saved, lg ++ [(ERROR, "Error saving article")])
  | Ok [] => (saved, lg)
  | Ok (category_id :: _) =>
      match insert_article d category_id article with
      | Ok _ => (S saved, lg)
      | Raise _ => (saved, lg ++ [(ERROR, "Error saving article")])
      end
  end.

Definition save_to_database (articles : list A) : nat * log :=
  match db self with
  | None => (0, [(WARNING, "Database not initialized, skipping save")])
  | Some d => fold_left (save_step d) articles (0, [])
  end.

(** Step 1, the bookkeeping loop over [raw_articles.items()]. *)
Definition count_raw (acc : dict CategoryCounts * nat) (item : string * list A)
  : dict CategoryCounts * nat :=
  let '(cats, total) := acc in
  let '(category, articles) := item in
  (dict_set category {| raw_count := length articles; processed_count := None |} cats,
   total + length articles).

(** Step 2, the loop over [raw_articles.items()]. *)
Definition process_category (acc : list A * dict CategoryCounts * log)
    (item : string * list A) : list A * dict CategoryCounts * log :=
  let '(all_processed, cats, lg) := acc in
  let '(category, articles) := item in
  match articles with
  | [] => acc
  | _ =>
      let '(processed, lg') := run_processor articles in
      (all_processed ++ processed,
       dict_alter (λ c, {| raw_count := raw_count c;
                           processed_count := Some (length processed) |})
                  category cats,
       lg ++ lg')
  end.

(** [run_full_pipeline]; [t_start] and [t_end] are the two readings of
    [datetime.now()].  Returns the results dictionary and what was logged. *)
Definition run_full_pipeline (t_start t_end : Z) (categories : list string)
    (save : bool) : Results * log :=
  let categories := or_default categories in
  let '(raw_articles, lg1) := run_ingestor categories in
  let '(cats, total) := fold_left count_raw raw_articles ([], 0) in
  let '(all_processed, cats, lg2) :=
    fold_left process_category raw_articles ([], cats, []) in
  let '(final_articles, lg3) := run_asset_automator all_processed in
  let '(saved, lg4) :=
    if save then save_to_database final_articles else (0, []) in
  ({| start_time := t_start;
      categories := cats;
      total_articles := total;
      processed_articles := length all_processed;
      saved_articles := saved;
      errors := [];
      end_time := t_end;
      duration_seconds := (t_end - t_start)%Z |},
   lg1 ++ lg2 ++ lg3 ++ lg4).

(** The persistence collaborator never saves: it is missing, or for every
    article the category lookup raises or finds no row, or the insert
    raises. *)
Definition persistence_fails : Prop :=
  match db self with
  | None => True
  | Some d =>
      ∀ article,
        match execute_query d (category_of article) with
        | Raise _ => True
        | Ok [] => True
        | Ok (category_id :: _) =>
            match insert_article d category_id article with
            | Raise _ => True
            | Ok _ => False
            end
        end
  end.

End Run.

End Pipeline.

(** ** processor/summarizer.py: sectors of a batch *)

Module Routing.

Import Processor.

(** The labels [categorize_article] can give under a configuration. *)
Definition sector_labels (config : list (string * list string)) : list string :=
  (fst <$> config) ++ ["general"].

(** [filter_by_sector]:
    [[a for a in articles if a.get('category') == sector.lower()]] *)
Definition filter_by_sector (articles : list ProcessedArticle) (sector : string)
  : list ProcessedArticle :=
  filter (λ a, p_category a = Text.lower sector) articles.

Global Instance newsapi_shaped_dec (a : Article) : Decision (newsapi_shaped a).
Proof. unfold newsapi_shaped. destruct (source a); apply _. Defined.

(** An ASCII capital letter. *)
Definition is_upper (c : ascii) : bool :=
  let n := nat_of_ascii c in (65 <=? n)%nat && (n <=? 90)%nat.

Fixpoint has_upper (s : string) : bool :=
  match s with
  | EmptyString => false
  | String c s' => is_upper c || has_upper s'
  end.

(** The configuration without the keywords that hold a capital letter. *)
Definition without_cased_keywords (config : list (string * list string))
  : list (string * list string) :=
  (λ entry, (entry.1, filter (λ k, has_upper k = false) entry.2)) <$> config.

(** The call to the model fails for good: it raises, or its answer is JSON
    but not an object. *)
Definition enrichment_fails (json_loads : string → parsed) (env : Env)
    (text : string) : Prop :=
  (∃ msg, chat env text = ApiError msg)
  ∨ (∃ answer, chat env text = Reply answer ∧ json_loads answer = JsonOther).

End Routing.

(** ** ingestor/scraper.py: feeds *)

Module Feed.

Import Scraper.

(** What indexing an empty list raises. *)
Definition IndexError : exn := OtherError "IndexError".

(** An item of [media_content], [media_thumbnail] or [enclosures]: a
    dictionary of strings, of which the code reads [type] and [url]. *)
Record Media := {
  media_type : option string;
  media_url : option string
}.

(** [media.get('type', '').startswith('image')] *)
Definition is_image (m : Media) : bool :=
  Text.startswith "image" (default "" (media_type m)).

(** [for media in medias: if ...startswith('image'): return media.get('url', '')];
    [None] when the loop runs out. *)
Fixpoint first_image_url (medias : list Media) : option string :=
  match medias with
  | [] => None
  | media :: rest =>
      if is_image media then Some (default "" (media_url media))
      else first_image_url rest
  end.

(** A feed entry, with the keys [fetch_from_rss] reads; [None] is a missing
    key.  [entry_content] lists, per content item, its [value] if any. *)
Record Entry := {
  entry_title : option string;
  entry_summary : option string;
  entry_content : option (list (option string));
  entry_link : option string;
  entry_published : option string;
  entry_id : option string;
  media_content : option (list Media);
  media_thumbnail : option (list Media);
  enclosures : option (list Media)
}.

Definition _extract_rss_image (entry : Entry) : result string :=
  match match media_content entry with
        | Some medias => first_image_url medias
        | None => None
        end with
  | Some image => Ok image
  | None =>
      match media_thumbnail entry with
      | Some [] => Raise IndexError
      | Some (thumbnail :: _) => Ok (default "" (media_url thumbnail))
      | None =>
          match match enclosures entry with
                | Some medias => first_image_url medias
                | None => None
                end with
          | Some image => Ok image
          | None => Ok ""
          end
      end
  end.

(** The entry has no image among its [media_content]. *)
Definition no_media_image (entry : Entry) : Prop :=
  match media_content entry with
  | Some medias => Forall (λ m, is_image m = false) medias
  | None => True
  end.

(** [entry.get('content', [{}])[0].get('value', '')] *)
Definition content_value (entry : Entry) : result string :=
  match entry_content entry with
  | None => Ok ""
  | Some [] => Raise IndexError
  | Some (item :: _) => Ok (default "" item)
  end.

(** A dictionary appended by [fetch_from_rss]. *)
Record FeedArticle := {
  f_title : string;
  f_description : string;
  f_content : string;
  f_url : string;
  f_image_url : string;
  f_published_at : string;
  f_source : string;
  f_external_id : string
}.

(** The parsed feed: [feed.feed.get('title')] and [feed.entries]. *)
Record ParsedFeed := {
  feed_title : option string;
  entries : list Entry
}.

(** The dictionary literal built for one entry. *)
Definition rss_article (feed : ParsedFeed) (entry : Entry) : result FeedArticle :=
  match content_value entry with
  | Raise e => Raise e
  | Ok content =>
      match _extract_rss_image entry with
      | Raise e => Raise e
      | Ok image =>
          Ok {| f_title := default "" (entry_title entry);
                f_description := default "" (entry_summary entry);
                f_content := content;
                f_url := default "" (entry_link entry);
                f_image_url := image;
                f_published_at := default "" (entry_published entry);
                f_source := default "" (feed_title feed);
                f_external_id :=
                  default (default "" (entry_link entry)) (entry_id entry) |}
      end
  end.

(** The [for entry in feed.entries[:50]] loop inside the [try]: an entry that
    raises ends it, and what was appended so far is kept. *)
Fixpoint rss_loop (feed : ParsedFeed) (todo : list Entry)
    (articles : list FeedArticle) : list FeedArticle :=
  match todo with
  | [] => articles
  | entry :: rest =>
      match rss_article feed entry with
      | Ok article => rss_loop feed rest (articles ++ [article])
      | Raise _ => articles
      end
  end.

(** [fetch_from_rss]: one [_rate_limit], then the parse; [parsed] is [None]
    when [feedparser.parse] raises. *)
Definition fetch_from_rss (w : World) (s : Limiter) (parsed : option ParsedFeed)
  : World * Limiter * list FeedArticle :=
  let '(w, s) := _rate_limit w s in
  match parsed with
  | Some feed => (w, s, rss_loop feed (take 50 (entries feed)) [])
  | None => (w, s, [])
  end.

End Feed.

(** ** ingestor/scraper.py: all sectors *)

Module Ingest.

Import Scraper.

(** What a missing dictionary key raises. *)
Definition KeyError (k : string) : exn := OtherError ("KeyError: " +:+ k).

Definition bind {A B} (r : result A) (f : A → result B) : result B :=
  match r with
  | Ok a => f a
  | Raise e => Raise e
  end.

(** The dictionary [fetch_all_sectors] starts from. *)
Definition empty_sectors : list (string * list Article) :=
  [ ("farming", []); ("tech", []); ("politics", []); ("hospitality", []);
    ("general", []) ].

(** [all_articles[sector].append(article)] *)
Fixpoint append_to (sector : string) (article : Article)
    (all_articles : list (string * list Article))
  : result (list (string * list Article)) :=
  match all_articles with
  | [] => Raise (KeyError sector)
  | (k, articles) :: rest =>
      if bool_decide (k = sector) then Ok ((k, articles ++ [article]) :: rest)
      else bind (append_to sector article rest) (λ rest', Ok ((k, articles) :: rest'))
  end.

(** [for article in articles: article['sector'] = sector;
    all_articles[sector].append(article)] *)
Fixpoint tag_and_append (sector : string) (articles : list Article)
    (all_articles : list (string * list Article))
  : result (list (string * list Article)) :=
  match articles with
  | [] => Ok all_articles
  | article :: rest =>
      bind (append_to sector (set_sector sector article) all_articles)
           (tag_and_append sector rest)
  end.

(** [_get_rss_feeds] *)
Definition _get_rss_feeds : list (string * list string) :=
  [ ("general", ["https://www.timesofisrael.com/feed/";
                 "https://www.jpost.com/Rss/RssFeeds.aspx"]);
    ("tech", ["https://www.calcalist.co.il/General/RssFeed.xml"]);
    ("farming", ["https://www.israel21c.org/feed/"]) ].

Section FetchAll.

(** What the network returns: per search query, for the headlines of the
    country, and per feed url (the feed articles seen through the keys the
    rest of the program reads). *)
Variable fetch_from_newsapi : string → list Article.
Variable general_articles : list Article.
Variable fetch_from_rss : string → list Article.

(** The inner loop over one list of queries or of feed urls. *)
Fixpoint fetch_each (fetch : string → list Article) (sector : string)
    (sources : list string) (all_articles : list (string * list Article))
  : result (list (string * list Article)) :=
  match sources with
  | [] => Ok all_articles
  | source :: rest =>
      bind (tag_and_append sector (fetch source) all_articles)
           (fetch_each fetch sector rest)
  end.

(** [for sector, config in sectors.items(): ... queries[:2] ...]; a sector's
    [search_queries] may be missing. *)
Fixpoint fetch_sector_queries (sectors : list (string * option (list string)))
    (all_articles : list (string * list Article))
  : result (list (string * list Article)) :=
  match sectors with
  | [] => Ok all_articles
  | (sector, queries) :: rest =>
      bind (fetch_each fetch_from_newsapi sector (take 2 (default [] queries))
              all_articles)
           (fetch_sector_queries rest)
  end.

(** [for sector, feeds in rss_feeds.items(): for feed_url in feeds: ...] *)
Fixpoint fetch_sector_feeds (rss_feeds : list (string * list string))
    (all_articles : list (string * list Article))
  : result (list (string * list Article)) :=
  match rss_feeds with
  | [] => Ok all_articles
  | (sector, feeds) :: rest =>
      bind (fetch_each fetch_from_rss sector feeds all_articles)
           (fetch_sector_feeds rest)
  end.

Definition fetch_all_sectors (sectors : list (string * option (list string)))
    (use_rss : bool) : result (list (string * list Article)) :=
  bind (fetch_sector_queries sectors empty_sectors) (λ all_articles,
  bind (tag_and_append "general" general_articles all_articles) (λ all_articles,
  bind (if use_rss then fetch_sector_feeds _get_rss_feeds all_articles
        else Ok all_articles) (λ all_articles,
  Ok ((λ entry, (entry.1, dedupe entry.2)) <$> all_articles)))).

End FetchAll.

End Ingest.

(** ** Properties of a sector dictionary *)

Module SectorDict.

(** The keys of [empty_sectors]. *)
Definition sector_keys : list string :=
  ["farming"; "tech"; "politics"; "hospitality"; "general"].

(** Each article is filed under the sector it is tagged with. *)
Definition tagged (all_articles : list (string * list Article)) : Prop :=
  Forall (λ entry, Forall (λ a, sector a = Str entry.1) entry.2) all_articles.

End SectorDict.

(** ** ingestor/scraper.py: the standard format *)

Module Format.

(** The JSON values an article dictionary holds: [None], a string, or a
    nested dictionary (the [source] object of NewsAPI). *)
#[warnings="-register-all"]
Inductive value :=
  | VNone
  | VStr (s : string)
  | VDict (d : gmap string value).

(** Python truthiness. *)
Definition truthy (v : value) : bool :=
  match v with
  | VNone => false
  | VStr s => Text.nonempty s
  | VDict d => match map_to_list d with [] => false | _ => true end
  end.

(** [a or b] *)
Definition py_or (a b : value) : value := if truthy a then a else b.

(** [d.get(k, default)] *)
Definition get_default (d : gmap string value) (k : string) (dflt : value) : value :=
  default dflt (d !! k).

(** [article.get('source', {}).get('name', '') if
    isinstance(article.get('source'), dict) else article.get('source', '')] *)
Definition source_of (article : gmap string value) : value :=
  match article !! "source" with
  | Some (VDict source) => get_default source "name" (VStr "")
  | _ => get_default article "source" (VStr "")
  end.

(** The dictionary built for one article. *)
Definition format_article (article : gmap string value) : gmap string value :=
  let get := get_default article in
  <["external_id" := get "external_id" (get "url" (VStr ""))]>
  (<["title" := get "title" (VStr "")]>
  (<["description" := py_or (get "description" (VStr "")) (get "summary" (VStr ""))]>
  (<["content" := get "content" (VStr "")]>
  (<["url" := get "url" (VStr "")]>
  (<["image_url" := py_or (get "image_url" (VStr "")) (get "urlToImage" (VStr ""))]>
  (<["published_at" :=
       py_or (get "published_at" (VStr "")) (get "publishedAt" (VStr ""))]>
  (<["source" := source_of article]>
  (<["category" := get "sector" (get "category" (VStr "general"))]> ∅)))))))).

Definition to_json_format (articles : list (gmap string value))
  : list (gmap string value) :=
  format_article <$> articles.

(** A key that is missing or holds a string. *)
Definition absent_or_str (article : gmap string value) (k : string) : Prop :=
  article !! k = None ∨ ∃ s, article !! k = Some (VStr s).

(** The keys that stand in for another one hold strings when present, and
    the name of a source object is not itself an object. *)
Definition plain_fallbacks (article : gmap string value) : Prop :=
  absent_or_str article "summary"
  ∧ absent_or_str article "urlToImage"
  ∧ absent_or_str article "publishedAt"
  ∧ ∀ source name, article !! "source" = Some (VDict source) →
      source !! "name" ≠ Some (VDict name).

End Format.

(** ** pipeline.py: what a run accounts for *)

Module Accounting.

Import Pipeline.

Section Views.

Context {A : Type}.

(** What a category contributes: the fetched articles, or none when the
    fetch raises. *)
Definition fetched (fetch_by_category : string → result (list A))
    (category : string) : list A :=
  match fetch_by_category category with
  | Ok articles => articles
  | Raise _ => []
  end.

Definition fetch_raises (fetch_by_category : string → result (list A))
    (category : string) : Prop :=
  ∃ e, fetch_by_category category = Raise e.

Global Instance fetch_raises_dec fetch_by_category category :
  Decision (fetch_raises fetch_by_category category).
Proof.
  unfold fetch_raises. destruct (fetch_by_category category) as [l|e].
  - right. by intros [e' He'].
  - left. by eexists.
Defined.

Variable self : Components (A := A).

(** The entry of the category table after step 1. *)
Definition raw_counts (item : string * list A) : string * CategoryCounts :=
  (item.1, {| raw_count := length item.2; processed_count := None |}).

(** What step 2 appends for a category: nothing for an empty one. *)
Definition processed_of (item : string * list A) : list A :=
  match item.2 with
  | [] => []
  | _ => (run_processor self item.2).1
  end.

(** The entry of the category table after step 2. *)
Definition final_counts (item : string * list A) : string * CategoryCounts :=
  (item.1,
   {| raw_count := length item.2;
      processed_count := match item.2 with
                         | [] => None
                         | _ => Some (length (processed_of item))
                         end |}).

End Views.

End Accounting.

(** ** asset_automator/uploader.py *)

Module Uploader.

(** The uploader's [url_cache], and the uploads that went through so far:
    the image url and the file name it was stored under. *)
Record State := {
  url_cache : gmap string string;
  stored : list (string * string)
}.

(** A new [ImageUploader]. *)
Definition new_uploader : State := {| url_cache := ∅; stored := [] |}.

(** [a or b] on values that are [None] or strings. *)
Definition py_or (a b : pyval) : pyval := if truthy a then a else b.

Section WithStorage.

(** [_get_fallback_image()]. *)
Variable fallback_image : string.
(** [_download_image]: the bytes, or [None] after any failure. *)
Variable _download_image : string → option string.
Variable _optimize_image : string → string.
Variable _get_extension : string → string → string.
Variable _get_image_hash : string → string.
(** The upload to the configured provider: given the image data and the file
    name it returns the hosted url or raises. *)
Variable provider_upload : string → string → result string.

Definition upload_image (st : State) (url : string) (article_id : pyval)
  : State * string :=
  if negb (Text.nonempty url) then (st, fallback_image)
  else
    match url_cache st !! url with
    | Some hosted_url => (st, hosted_url)
    | None =>
        match _download_image url with
        | None => (st, fallback_image)
        | Some image_data =>
            if negb (Text.nonempty image_data) then (st, fallback_image)
            else
              let image_data := _optimize_image image_data in
              let ext := _get_extension url image_data in
              let filename :=
                (if truthy article_id then or_empty article_id
                 else _get_image_hash url) +:+ ext in
              match provider_upload image_data filename with
              | Ok hosted_url =>
                  ({| url_cache := <[url := hosted_url]> (url_cache st);
                      stored := stored st ++ [(url, filename)] |},
                   hosted_url)
              | Raise _ => (st, fallback_image)
              end
        end
    end.

(** One turn of the loop of [process_article_images], on an article
    dictionary whose values are [None] or strings. *)
Definition image_step (acc : State * list (gmap string pyval))
    (article : gmap string pyval) : State * list (gmap string pyval) :=
  let '(st, done) := acc in
  let original_url := default (Some "") (article !! "image_url") in
  let article_id :=
    py_or (default None (article !! "id"))
          (default (Some "") (article !! "external_id")) in
  if truthy original_url then
    let '(st, hosted_url) := upload_image st (or_empty original_url) article_id in
    (st, done ++ [<["image_url" := Some hosted_url]> article])
  else (st, done ++ [<["image_url" := Some fallback_image]> article]).

Definition process_article_images (st : State) (articles : list (gmap string pyval))
  : State * list (gmap string pyval) :=
  fold_left image_step articles (st, []).

End WithStorage.

(** No image was stored twice, and every stored image is in the cache. *)
Definition stored_once (st : State) : Prop :=
  NoDup (stored st).*1 ∧ ∀ url, url ∈ (stored st).*1 → is_Some (url_cache st !! url).

End Uploader.

(** ** Sample inputs *)

(** The test article of the module's [main]. *)
Definition sample_article : Article :=
  {| title := Str "Israeli Tech Startup Raises $50M in Series B Funding";
     description := Str "A Tel Aviv-based technology company has secured major investment";
     content := Str "Full article content here...";
     url := Str "https://example.com/article";
     urlToImage := Str "https://example.com/image.jpg";
     publishedAt := Str "2024-05-01T10:00:00";
     source := SrcDict (Str "TechCrunch");
     sector := Absent;
     external_id := Absent |}.

(** The same url under another headline, tagged by the ingestor. *)
Definition sample_article_retitled : Article :=
  {| title := Str "Funding round closes";
     description := Null;
     content := Absent;
     url := Str "https://example.com/article";
     urlToImage := Null;
     publishedAt := Str "2024-05-02T08:30:00";
     source := SrcDict (Str "Globes");
     sector := Str "politics";
     external_id := Absent |}.

(** The same headline without a url. *)
Definition sample_article_no_url : Article :=
  {| title := Str "Israeli Tech Startup Raises $50M in Series B Funding";
     description := Str "A Tel Aviv-based technology company has secured major investment";
     content := Null;
     url := Str "";
     urlToImage := Absent;
     publishedAt := Absent;
     source := SrcAbsent;
     sector := Str "farming";
     external_id := Absent |}.

(** An entry as [fetch_from_rss] builds it, from a feed item without a link:
    the source is the feed title, a plain string. *)
Definition feed_article_no_link : Article :=
  {| title := Str "Knesset committee to convene";
     description := Str "The committee meets on Monday.";
     content := Str "";
     url := Str "";
     urlToImage := Absent;
     publishedAt := Absent;
     source := SrcStr "The Times of Israel";
     sector := Str "general";
     external_id := Str "urn:guid:1" |}.

(** The model cannot be reached. *)
Definition env_offline : Processor.Env :=
  {| Processor.chat := λ _, Processor.ApiError "connection refused";
     Processor.now_iso := "2024-05-01T10:05:00" |}.

(** The model answers in prose. *)
Definition env_prose : Processor.Env :=
  {| Processor.chat := λ _, Processor.Reply "Three things happened.";
     Processor.now_iso := "2024-05-03T09:00:00" |}.

(** Stand-ins for the two library functions. *)
Definition toy_digest (s : string) : string := "sha256:" +:+ s.
Definition toy_json_loads (s : string) : Processor.parsed := Processor.NotJson.

(** A tech article with the given url, external id and headline. *)
Definition article_with (u : field) (guid : field) (headline : string) : Article :=
  {| title := Str headline; description := Absent; content := Absent;
     url := u; urlToImage := Absent; publishedAt := Absent;
     source := SrcDict (Str "Times of Israel");
     sector := Str "tech"; external_id := guid |}.

(** A feed entry without a link but with a GUID. *)
Definition guid_only_article : Article :=
  article_with (Str "") (Str "urn:guid:1") "Entry without a link".

(** 23:00:00 local time on some day, in a zone two hours ahead of UTC. *)
Definition evening : Scraper.World :=
  {| Scraper.clock := (19000 * Scraper.day + 21 * 3600 * Scraper.second)%Z;
     Scraper.utc_offset := (2 * 3600 * Scraper.second)%Z;
     Scraper.slept := [] |}.

(** A scraper that has used up its hundred requests, the last one a minute
    before [evening], the counter having been reset that morning. *)
Definition limiter_at_quota : Scraper.Limiter :=
  {| Scraper.request_delay := (1 * Scraper.second)%Z;
     Scraper.last_request_time :=
       (Scraper.time_time evening - 60 * Scraper.second)%Z;
     Scraper.daily_request_count := 100;
     Scraper.daily_reset_time :=
       (Scraper.datetime_now evening - 15 * 3600 * Scraper.second)%Z;
     Scraper.max_daily_requests := 100 |}.

(** A stand-in for [urljoin]. *)
Definition toy_urljoin (base link : string) : string := base +:+ link.

(** An article element that has a headline and no link at all. *)
Definition headline_only : list Scraper.Tag :=
  [ {| Scraper.tag_name := "div"; Scraper.tag_text := "Headline of the day";
       Scraper.tag_href := None |};
    {| Scraper.tag_name := "h2"; Scraper.tag_text := "Headline of the day";
       Scraper.tag_href := None |} ].

(** An article element whose first link has no href, followed by one that
    has. *)
Definition anchor_without_href : list Scraper.Tag :=
  [ {| Scraper.tag_name := "a"; Scraper.tag_text := "Cabinet meets";
       Scraper.tag_href := None |};
    {| Scraper.tag_name := "a"; Scraper.tag_text := "Read more";
       Scraper.tag_href := Some "/news/cabinet" |} ].

(** Articles are stood for by their headlines; none carries a category. *)
Definition headline_category (headline : string) : string := "general".

(** A database that refuses every connection. *)
Definition database_down : Pipeline.Database (A := string) :=
  {| Pipeline.execute_query := λ _, Raise (OtherError "connection refused");
     Pipeline.insert_article := λ _ _, Raise (OtherError "connection refused") |}.

(** Only the ingestor and the database were built. *)
Definition degraded_pipeline : Pipeline.Components (A := string) :=
  {| Pipeline.ingestor :=
       Some (λ category,
               if bool_decide (category = "tech")
               then Ok ["Chip maker opens plant"; "Startup raises funds"]
               else Raise (OtherError "timeout"));
     Pipeline.processor := None;
     Pipeline.uploader := None;
     Pipeline.db := Some database_down |}.

(** A network on which only the query "Israel sports" finds an article. *)
Definition sports_only (query : string) : list Article :=
  if bool_decide (query = "Israel sports")
  then [article_with (Str "https://sport.example/1") Absent "Derby tonight"]
  else [].

(** A network on which every query finds the same two articles. *)
Definition two_hits (query : string) : list Article :=
  [ article_with (Str "https://a") Absent "first a";
    article_with (Str "https://b") Absent "first b" ].

(** A pipeline with all four components; the processor and the asset stage
    hand back what they are given and the database saves. *)
Definition working_pipeline : Pipeline.Components (A := string) :=
  {| Pipeline.ingestor := Pipeline.ingestor degraded_pipeline;
     Pipeline.processor := Some (λ articles, articles);
     Pipeline.uploader := Some (λ articles, articles);
     Pipeline.db :=
       Some {| Pipeline.execute_query := λ _, Ok [1%Z];
               Pipeline.insert_article := λ _ _, Ok () |} |}.

(** Stand-ins for the download and the storage provider. *)
Definition toy_download (url : string) : option string := Some "bytes".
Definition toy_provider (image_data filename : string) : result string :=
  Ok ("/uploads/" +:+ filename).

(** * Properties *)

(** ** Text *)

Section TextFacts.

Import Text.

Lemma append_nil (b : string) : "" +:+ b = b.
Proof. reflexivity. Qed.

Lemma append_cons (x : ascii) (a b : string) :
  String x a +:+ b = String x (a +:+ b).
Proof. reflexivity. Qed.

Lemma startswith_spec (p s : string) :
  startswith p s = true ↔ ∃ post, s = p +:+ post.
Proof.
  revert s. induction p as [|a p IH]; intros s; simpl.
  - split; [intros _; by exists s | done].
  - destruct s as [|b s]; simpl.
    + split; [done | intros [post Hpost]; discriminate].
    + rewrite andb_true_iff, bool_decide_eq_true, IH. split.
      * intros [-> [post ->]]. by exists post.
      * intros [post Hpost]. rewrite append_cons in Hpost.
        injection Hpost as -> ->. eauto.
Qed.

Lemma contains_spec (k s : string) : contains k s = true ↔ occurs_in k s.
Proof.
  unfold occurs_in. induction s as [|b s IH].
  - simpl. rewrite orb_false_r, startswith_spec. split.
    + intros [post Hpost]. by exists "", post.
    + intros [pre [post Hs]]. destruct pre; [eauto | discriminate].
  - cbn [contains]. rewrite orb_true_iff, IH, startswith_spec. split.
    + intros [[post Hpost] | [pre [post Hs]]].
      * by exists "", post.
      * exists (String b pre), post. rewrite append_cons. by rewrite Hs.
    + intros [pre [post Hs]]. destruct pre as [|c pre].
      * left. eauto.
      * right. rewrite append_cons in Hs. injection Hs as -> Hs. eauto.
Qed.

Lemma contains_false_spec (k s : string) : contains k s = false ↔ ¬ occurs_in k s.
Proof. rewrite <- contains_spec. by destruct (contains k s). Qed.

End TextFacts.

(** ** Categorization *)

Section CategorizeFacts.

Import Text Processor.

Lemma any_keyword_in_spec (text : string) (keywords : list string) :
  any_keyword_in text keywords = true ↔ ∃ k, k ∈ keywords ∧ occurs_in k text.
Proof.
  induction keywords as [|kw rest IH]; simpl.
  - split; [done | intros [k [Hk _]]; by apply elem_of_nil in Hk].
  - rewrite orb_true_iff, IH, contains_spec. split.
    + intros [Hkw | [k [Hk Hocc]]].
      * exists kw. split; [left | done].
      * exists k. split; [by right | done].
    + intros [k [Hk Hocc]]. apply elem_of_cons in Hk as [-> | Hk]; eauto.
Qed.

Lemma any_keyword_in_none (text : string) (keywords : list string) :
  any_keyword_in text keywords = false ↔ ∀ k, k ∈ keywords → ¬ occurs_in k text.
Proof.
  split.
  - intros Hnone k Hk Hocc.
    assert (any_keyword_in text keywords = true) as Hsome
      by (apply any_keyword_in_spec; eauto).
    congruence.
  - intros Hnone. destruct (any_keyword_in text keywords) eqn:Hany; [|done].
    apply any_keyword_in_spec in Hany as [k [Hk Hocc]]. by destruct (Hnone k).
Qed.

(** The loop returns the first sector of the configuration that matches. *)
Lemma first_sector_Some (text : string) (config : list (string * list string))
    (sector : string) :
  first_sector text config = Some sector →
  ∃ before keywords after,
    config = before ++ (sector, keywords) :: after
    ∧ any_keyword_in text keywords = true
    ∧ ∀ s ks, (s, ks) ∈ before → any_keyword_in text ks = false.
Proof.
  induction config as [|[s ks] rest IH]; simpl; [done|].
  destruct (any_keyword_in text ks) eqn:Hany.
  - intros [= <-]. exists [], ks, rest. split_and!; [done | done |].
    intros s' ks' Hin. by apply elem_of_nil in Hin.
  - intros Hrest. destruct (IH Hrest) as (before & kws & after & -> & Hkws & Hbefore).
    exists ((s, ks) :: before), kws, after. split_and!; [done | done |].
    intros s' ks' Hin. apply elem_of_cons in Hin as [[= -> ->] | Hin]; eauto.
Qed.

Lemma first_sector_None (text : string) (config : list (string * list string)) :
  first_sector text config = None →
  ∀ s ks, (s, ks) ∈ config → any_keyword_in text ks = false.
Proof.
  induction config as [|[s ks] rest IH]; simpl.
  - intros _ s ks Hin. by apply elem_of_nil in Hin.
  - destruct (any_keyword_in text ks) eqn:Hany; [done|].
    intros Hrest s' ks' Hin. apply elem_of_cons in Hin as [[= -> ->] | Hin]; eauto.
Qed.

(** C1, as the code has it.  For every configuration, title and description,
    [categorize_article] lower-cases the title, one space and the description
    ([None] counting as empty) put together, and returns the first sector, in
    the configuration's declared order, one of whose keywords occurs as a
    substring of that text; when no keyword of any sector occurs it returns
    'general'.  With the program's own keyword table, "Israeli farmers boost
    crop yield" goes to 'farming' and "random headline with no sector
    keywords" to 'general'. *)
Theorem categorize_article_first_match :
  (∀ (config : list (string * list string)) (title description : pyval),
     let text := lower (py_str title +:+ " " +:+ or_empty description) in
     (∃ before sector keywords after,
         config = before ++ (sector, keywords) :: after
         ∧ (∃ k, k ∈ keywords ∧ occurs_in k text)
         ∧ (∀ s ks k, (s, ks) ∈ before → k ∈ ks → ¬ occurs_in k text)
         ∧ categorize_article_with config title description = sector)
     ∨ ((∀ s ks k, (s, ks) ∈ config → k ∈ ks → ¬ occurs_in k text)
        ∧ categorize_article_with config title description = "general"))
  ∧ (∀ title description,
       categorize_article title description
       = categorize_article_with sector_keywords title description)
  ∧ categorize_article (Some "Israeli farmers boost crop yield") (Some "") = "farming"
  ∧ categorize_article (Some "random headline with no sector keywords") (Some "")
    = "general".
Proof.
  split_and!; [| done | done | done].
  intros config title description text.
  unfold categorize_article_with, categorize_text. fold text.
  destruct (first_sector text config) as [sector|] eqn:Hfirst; simpl.
  - left. apply first_sector_Some in Hfirst
      as (before & keywords & after & -> & Hany & Hbefore).
    exists before, sector, keywords, after. split_and!; [done | | | done].
    + by apply any_keyword_in_spec.
    + intros s ks k Hin Hk. by eapply any_keyword_in_none; eauto.
  - right. split; [|done]. intros s ks k Hin Hk.
    eapply any_keyword_in_none; eauto. by eapply first_sector_None.
Qed.

(** C1 as worded fails: the text is not the plain concatenation.  A keyword
    that straddles the end of the title and the start of the description is
    found in the concatenation, but the code separates the two by a space. *)
Lemma categorize_article_not_plain_concatenation :
  categorize_spec sector_keywords "Start" "up nation" = "tech"
  ∧ categorize_article (Some "Start") (Some "up nation") = "general".
Proof. split; reflexivity. Qed.

End CategorizeFacts.

(** ** Processing one article *)

Section ProcessFacts.

Import Processor.

Variable sha256_hexdigest : string -> string.
Variable json_loads : string -> parsed.

Local Abbreviation process_article :=
  (process_article sha256_hexdigest json_loads).

(** The only step of [process_article] that can raise is the lookup of the
    source name: on an article shaped as NewsAPI sends it, it returns. *)
Lemma process_article_returns (env : Env) (a : Article) :
  newsapi_shaped a → ∃ p, process_article env a = Ok p.
Proof.
  unfold newsapi_shaped, Processor.process_article.
  destruct (source a); simpl; intros Hshape; by eauto.
Qed.

(** Outside that shape it raises, and [process_batch] skips the article. *)
Lemma process_article_raises (env : Env) (a : Article) :
  ¬ newsapi_shaped a → process_article env a = Raise AttributeError.
Proof.
  unfold newsapi_shaped, Processor.process_article.
  destruct (source a); simpl; intros Hshape; try done; by destruct Hshape.
Qed.

Lemma process_article_id (env : Env) (a : Article) (p : ProcessedArticle) :
  process_article env a = Ok p →
  p_id p = if truthy (get (url a))
           then Some (sha256_hexdigest (or_empty (get_or "" (url a))))
           else None.
Proof.
  unfold Processor.process_article.
  destruct (source_name (source a)); [|done]. by intros [= <-].
Qed.

Lemma process_article_category (env : Env) (a : Article) (p : ProcessedArticle) :
  process_article env a = Ok p →
  p_category p
  = categorize_article (get_or "" (title a)) (get_or "" (description a)).
Proof.
  unfold Processor.process_article.
  destruct (source_name (source a)); [|done]. by intros [= <-].
Qed.

(** C7.  The id of a processed article is the SHA-256 hex digest of its url:
    two articles with the same non-empty url get the same id, whatever their
    other fields, whatever the language model answers and whenever the
    processing happens; and an article shaped as NewsAPI sends it does get
    processed. *)
Theorem process_article_id_deterministic (env1 env2 : Env) (a1 a2 : Article)
    (u : string) :
  get (url a1) = Some u → get (url a2) = Some u → u ≠ "" →
  (∀ p1 p2,
     process_article env1 a1 = Ok p1 → process_article env2 a2 = Ok p2 →
     p_id p1 = p_id p2 ∧ p_id p1 = Some (sha256_hexdigest u))
  ∧ (newsapi_shaped a1 → ∃ p1, process_article env1 a1 = Ok p1).
Proof.
  intros Hu1 Hu2 Hne. split; [|apply process_article_returns].
  intros p1 p2 Hp1 Hp2.
  rewrite (process_article_id _ _ _ Hp1), (process_article_id _ _ _ Hp2).
  rewrite Hu1, Hu2.
  destruct (url a1) as [| |u1]; [done | done |]; injection Hu1 as ->.
  destruct (url a2) as [| |u2]; [done | done |]; injection Hu2 as ->.
  by destruct u.
Qed.

(** C9.  The category depends on the title and the description only: two
    articles that agree on both get the same category, namely the one
    [categorize_article] gives for them, whatever their sector tag and other
    fields; and replacing the sector tag of an article changes nothing at all
    in what [process_article] returns, so the tag is neither consulted nor
    carried over. *)
Theorem process_article_category_ignores_sector (env1 env2 : Env)
    (a1 a2 : Article) :
  get_or "" (title a1) = get_or "" (title a2) →
  get_or "" (description a1) = get_or "" (description a2) →
  (∀ p1 p2,
     process_article env1 a1 = Ok p1 → process_article env2 a2 = Ok p2 →
     p_category p1 = p_category p2
     ∧ p_category p1
       = categorize_article (get_or "" (title a1)) (get_or "" (description a1)))
  ∧ (∀ tag, process_article env1 (with_sector tag a1) = process_article env1 a1)
  ∧ (newsapi_shaped a1 → ∃ p1, process_article env1 a1 = Ok p1).
Proof.
  intros Htitle Hdescription. split_and!.
  - intros p1 p2 Hp1 Hp2.
    rewrite (process_article_category _ _ _ Hp1), (process_article_category _ _ _ Hp2).
    by rewrite Htitle, Hdescription.
  - done.
  - apply process_article_returns.
Qed.

(** C10, as the code has it.  An article shaped as NewsAPI sends it (its
    source an object, or missing) whose url is absent or empty is still
    processed: the result has [None] for id, and
    every other field comes from its usual place: title, description, url,
    image and date from the article (with [''] for a missing key), the source
    name from the source object, the category from [categorize_article], the
    summary fields from [summarize_article] and the time stamp from the
    clock. *)
Theorem process_article_without_url (env : Env) (a : Article) :
  truthy (get (url a)) = false → newsapi_shaped a →
  ∃ p, process_article env a = Ok p
    ∧ p_id p = None
    ∧ p_title p = get_or "" (title a)
    ∧ p_description p = get_or "" (description a)
    ∧ p_url p = get_or "" (url a)
    ∧ p_image_url p = get_or "" (urlToImage a)
    ∧ p_published_at p = get_or "" (publishedAt a)
    ∧ source_name (source a) = Ok (p_source p)
    ∧ p_category p
      = categorize_article (get_or "" (title a)) (get_or "" (description a))
    ∧ (let summary :=
         summarize_article json_loads env (get_or "" (title a))
           (get_or "" (description a)) (get_or "" (content a)) in
       p_summary p = bullets summary
       ∧ p_sentiment p = sentiment summary
       ∧ p_importance p = importance summary)
    ∧ p_processed_at p = now_iso env.
Proof.
  intros Hurl Hshape. unfold Processor.process_article. rewrite Hurl.
  unfold newsapi_shaped in Hshape.
  destruct (source a) as [| | |name]; try done; simpl; eexists; split_and!; done.
Qed.

(** A batch of articles shaped as NewsAPI sends them loses none. *)
Lemma process_batch_length (envs : nat → Env) (articles : list Article) :
  Forall newsapi_shaped articles →
  length (process_batch sha256_hexdigest json_loads envs articles)
  = length articles.
Proof.
  unfold process_batch. generalize 0%nat as i.
  intros i Hshaped. revert i.
  induction Hshaped as [|a rest Ha _ IH]; intros i; simpl; [done|].
  destruct (process_article_returns (envs i) a Ha) as [p ->]. simpl.
  by rewrite IH.
Qed.

End ProcessFacts.

Lemma process_article_id_deterministic_witness :
  (∀ p1 p2,
     Processor.process_article toy_digest toy_json_loads env_offline sample_article
       = Ok p1 →
     Processor.process_article toy_digest toy_json_loads env_prose
       sample_article_retitled = Ok p2 →
     Processor.p_id p1 = Processor.p_id p2
     ∧ Processor.p_id p1 = Some (toy_digest "https://example.com/article"))
  ∧ (Processor.newsapi_shaped sample_article →
     ∃ p1, Processor.process_article toy_digest toy_json_loads env_offline
             sample_article = Ok p1).
Proof.
  apply (process_article_id_deterministic toy_digest toy_json_loads
           env_offline env_prose sample_article sample_article_retitled
           "https://example.com/article"); [reflexivity | reflexivity | discriminate].
Defined.

Lemma process_article_category_ignores_sector_witness :
  (∀ p1 p2,
     Processor.process_article toy_digest toy_json_loads env_offline sample_article
       = Ok p1 →
     Processor.process_article toy_digest toy_json_loads env_prose
       sample_article_no_url = Ok p2 →
     Processor.p_category p1 = Processor.p_category p2
     ∧ Processor.p_category p1
       = Processor.categorize_article (get_or "" (title sample_article))
           (get_or "" (description sample_article)))
  ∧ (∀ tag,
       Processor.process_article toy_digest toy_json_loads env_offline
         (with_sector tag sample_article)
       = Processor.process_article toy_digest toy_json_loads env_offline
           sample_article)
  ∧ (Processor.newsapi_shaped sample_article →
     ∃ p1, Processor.process_article toy_digest toy_json_loads env_offline
             sample_article = Ok p1).
Proof.
  apply (process_article_category_ignores_sector toy_digest toy_json_loads
           env_offline env_prose sample_article sample_article_no_url);
    reflexivity.
Defined.

Lemma process_article_without_url_witness :
  ∃ p, Processor.process_article toy_digest toy_json_loads env_prose
         sample_article_no_url = Ok p
    ∧ Processor.p_id p = None
    ∧ Processor.p_title p = get_or "" (title sample_article_no_url)
    ∧ Processor.p_description p = get_or "" (description sample_article_no_url)
    ∧ Processor.p_url p = get_or "" (url sample_article_no_url)
    ∧ Processor.p_image_url p = get_or "" (urlToImage sample_article_no_url)
    ∧ Processor.p_published_at p = get_or "" (publishedAt sample_article_no_url)
    ∧ Processor.source_name (source sample_article_no_url) = Ok (Processor.p_source p)
    ∧ Processor.p_category p
      = Processor.categorize_article (get_or "" (title sample_article_no_url))
          (get_or "" (description sample_article_no_url))
    ∧ (let summary :=
         Processor.summarize_article toy_json_loads env_prose
           (get_or "" (title sample_article_no_url))
           (get_or "" (description sample_article_no_url))
           (get_or "" (content sample_article_no_url)) in
       Processor.p_summary p = Processor.bullets summary
       ∧ Processor.p_sentiment p = Processor.sentiment summary
       ∧ Processor.p_importance p = Processor.importance summary)
    ∧ Processor.p_processed_at p = Processor.now_iso env_prose.
Proof.
  apply (process_article_without_url toy_digest toy_json_loads env_prose
           sample_article_no_url); [reflexivity | exact I].
Defined.

(** C10 as worded fails: not every article without a url is processed.  On
    a feed entry without a link, whose source is a plain string, the lookup
    of the source name raises. *)
Lemma process_article_raises_on_feed_entry :
  truthy (get (url feed_article_no_link)) = false
  ∧ Processor.process_article toy_digest toy_json_loads env_offline
      feed_article_no_link = Raise AttributeError.
Proof. split; reflexivity. Qed.

(** ** De-duplication *)

Section DedupeFacts.

Import Scraper.

Lemma fold_dedupe_step (articles : list Article) (seen : gset string)
    (unique : list Article) :
  fold_left dedupe_step articles (seen, unique)
  = (seen_after seen articles, unique ++ dedupe_from seen articles).
Proof.
  revert seen unique. induction articles as [|a rest IH]; intros seen unique.
  - simpl. by rewrite app_nil_r.
  - cbn [fold_left dedupe_from seen_after]. unfold dedupe_step at 2.
    fold (url_key a). fold (keeps seen a).
    destruct (keeps seen a); rewrite IH; [|done].
    by rewrite <- app_assoc.
Qed.

Lemma dedupe_unfold (articles : list Article) :
  dedupe articles = dedupe_from ∅ articles.
Proof. unfold dedupe. by rewrite fold_dedupe_step. Qed.

Lemma truthy_url_key (a : Article) :
  truthy (get_or "" (url a)) = true ↔ url_key a ≠ "".
Proof.
  unfold url_key. destruct (url a) as [| |[|c s]]; simpl; split; done.
Qed.

Lemma keeps_true (seen : gset string) (a : Article) :
  keeps seen a = true ↔ url_key a ≠ "" ∧ url_key a ∉ seen.
Proof.
  unfold keeps. by rewrite andb_true_iff, truthy_url_key, bool_decide_eq_true.
Qed.

Lemma keeps_false (seen : gset string) (a : Article) :
  keeps seen a = false ↔ url_key a = "" ∨ url_key a ∈ seen.
Proof.
  rewrite <- not_true_iff_false, keeps_true.
  destruct (decide (url_key a = "")), (decide (url_key a ∈ seen)); naive_solver.
Qed.

Lemma elem_of_seen_after (k : string) (seen : gset string) (articles : list Article) :
  k ∈ seen_after seen articles
  ↔ k ∈ seen ∨ (k ≠ "" ∧ k ∈ url_key <$> articles).
Proof.
  revert seen. induction articles as [|a rest IH]; intros seen; simpl.
  - rewrite elem_of_nil. naive_solver.
  - rewrite IH, elem_of_cons. destruct (keeps seen a) eqn:Hkeep.
    + apply keeps_true in Hkeep as [Hne Hnew].
      rewrite elem_of_union, elem_of_singleton. naive_solver.
    + apply keeps_false in Hkeep as [Hempty | Hseen]; naive_solver.
Qed.

Lemma dedupe_from_app (seen : gset string) (l1 l2 : list Article) :
  dedupe_from seen (l1 ++ l2)
  = dedupe_from seen l1 ++ dedupe_from (seen_after seen l1) l2.
Proof.
  revert seen. induction l1 as [|a l1 IH]; intros seen; simpl; [done|].
  destruct (keeps seen a); by rewrite IH.
Qed.

Lemma dedupe_from_sublist (seen : gset string) (articles : list Article) :
  dedupe_from seen articles `sublist_of` articles.
Proof.
  revert seen. induction articles as [|a rest IH]; intros seen; simpl.
  - constructor.
  - destruct (keeps seen a); [by apply sublist_skip | by apply sublist_cons].
Qed.

Lemma dedupe_from_unseen (seen : gset string) (articles : list Article) (a : Article) :
  a ∈ dedupe_from seen articles → url_key a ≠ "" ∧ url_key a ∉ seen.
Proof.
  revert seen. induction articles as [|b rest IH]; intros seen; simpl.
  - by intros ?%elem_of_nil.
  - destruct (keeps seen b) eqn:Hkeep.
    + apply keeps_true in Hkeep. intros [-> | Hin]%elem_of_cons; [done|].
      apply IH in Hin. set_solver.
    + apply IH.
Qed.

Lemma dedupe_from_NoDup (seen : gset string) (articles : list Article) :
  NoDup (url_key <$> dedupe_from seen articles).
Proof.
  revert seen. induction articles as [|b rest IH]; intros seen; simpl.
  - constructor.
  - destruct (keeps seen b); [|apply IH].
    rewrite fmap_cons. constructor; [|apply IH].
    intros (a & Hkey & Hin)%list_elem_of_fmap.
    apply dedupe_from_unseen in Hin. set_solver.
Qed.

(** A list whose urls are non-empty, pairwise distinct and new is kept whole. *)
Lemma dedupe_from_fixed (seen : gset string) (articles : list Article) :
  NoDup (url_key <$> articles) →
  (∀ a, a ∈ articles → url_key a ≠ "" ∧ url_key a ∉ seen) →
  dedupe_from seen articles = articles.
Proof.
  revert seen. induction articles as [|b rest IH]; intros seen Hnodup Hnew; [done|].
  rewrite fmap_cons in Hnodup. apply NoDup_cons in Hnodup as [Hb Hrest]. simpl.
  assert (keeps seen b = true) as ->.
  { apply keeps_true, Hnew. by left. }
  f_equal. apply IH; [done|]. intros a Ha.
  destruct (Hnew a) as [Hne Hunseen]; [by right|]. split; [done|].
  rewrite not_elem_of_union, elem_of_singleton. split; [|done].
  intros Heq. apply Hb. rewrite <- Heq. by apply list_elem_of_fmap_2.
Qed.

(** The article at the end of a list is kept exactly when it has a non-empty
    url that no earlier article of the list carries. *)
Lemma dedupe_snoc_keep (before : list Article) (a : Article) :
  url_key a ≠ "" → url_key a ∉ url_key <$> before →
  dedupe (before ++ [a]) = dedupe before ++ [a].
Proof.
  intros Hne Hnew. rewrite !dedupe_unfold, dedupe_from_app. simpl.
  assert (keeps (seen_after ∅ before) a = true) as ->; [|done].
  apply keeps_true. split; [done|]. rewrite elem_of_seen_after. set_solver.
Qed.

Lemma dedupe_snoc_drop (before : list Article) (a : Article) :
  url_key a = "" ∨ url_key a ∈ url_key <$> before →
  dedupe (before ++ [a]) = dedupe before.
Proof.
  intros Hdrop. rewrite !dedupe_unfold, dedupe_from_app. simpl.
  assert (keeps (seen_after ∅ before) a = false) as ->;
    [|by rewrite (app_nil_r (dedupe_from ∅ before))].
  apply keeps_false. rewrite elem_of_seen_after.
  destruct (decide (url_key a = "")); naive_solver.
Qed.

Lemma dedupe_prefix (l1 l2 : list Article) :
  dedupe l1 `prefix_of` dedupe (l1 ++ l2).
Proof. rewrite !dedupe_unfold, dedupe_from_app. by eexists. Qed.

(** C2, as the code has it.  The identity key is the url alone.  The output
    is a subsequence of the input (first-seen order is preserved), its urls
    are non-empty and pairwise distinct, and going through the input from the
    front, an article is kept exactly when its url is non-empty and no earlier
    article of the input has that url: the first occurrence of each url stays,
    later ones and articles without a url are dropped. *)
Theorem dedupe_keeps_first_url_occurrence (articles : list Article) :
  dedupe articles `sublist_of` articles
  ∧ NoDup (url_key <$> dedupe articles)
  ∧ (∀ a, a ∈ dedupe articles → url_key a ≠ "")
  ∧ (∀ before a after, articles = before ++ a :: after →
       dedupe (before ++ [a]) `prefix_of` dedupe articles
       ∧ (url_key a ≠ "" → url_key a ∉ url_key <$> before →
          dedupe (before ++ [a]) = dedupe before ++ [a])
       ∧ (url_key a = "" ∨ url_key a ∈ url_key <$> before →
          dedupe (before ++ [a]) = dedupe before)).
Proof.
  split_and!.
  - rewrite dedupe_unfold. apply dedupe_from_sublist.
  - rewrite dedupe_unfold. apply dedupe_from_NoDup.
  - intros a Ha. rewrite dedupe_unfold in Ha.
    by apply dedupe_from_unseen in Ha as [Hne _].
  - intros before a after ->. split_and!.
    + replace (before ++ a :: after) with ((before ++ [a]) ++ after)
        by (by rewrite <- app_assoc).
      apply dedupe_prefix.
    + apply dedupe_snoc_keep.
    + apply dedupe_snoc_drop.
Qed.

(** C6.  De-duplicating the output of the de-duplication changes nothing. *)
Theorem dedupe_idempotent (articles : list Article) :
  dedupe (dedupe articles) = dedupe articles.
Proof.
  rewrite !dedupe_unfold. apply dedupe_from_fixed.
  - apply dedupe_from_NoDup.
  - intros a Ha. by apply dedupe_from_unseen in Ha as [Hne _].
Qed.

(** What [fetch_by_category] returns has pairwise distinct, non-empty urls. *)
Lemma fetch_by_category_unique_urls (fetch_from_newsapi : string → list Article)
    (search_queries : string → option (list string)) (category : string) :
  let articles := fetch_by_category fetch_from_newsapi search_queries category in
  NoDup (url_key <$> articles) ∧ ∀ a, a ∈ articles → url_key a ≠ "".
Proof.
  unfold fetch_by_category. simpl. rewrite dedupe_unfold. split.
  - apply dedupe_from_NoDup.
  - intros a Ha. by apply dedupe_from_unseen in Ha as [Hne _].
Qed.

End DedupeFacts.

(** Urls a, b, a, c give the articles of a, b, c, in that order. *)
Example dedupe_abac :
  Scraper.dedupe
    [ article_with (Str "https://a") Absent "first a";
      article_with (Str "https://b") Absent "first b";
      article_with (Str "https://a") Absent "second a";
      article_with (Str "https://c") Absent "first c" ]
  = [ article_with (Str "https://a") Absent "first a";
      article_with (Str "https://b") Absent "first b";
      article_with (Str "https://c") Absent "first c" ].
Proof. vm_compute. reflexivity. Qed.

(** C2 as worded fails: the external id is never consulted.  An article with
    an empty url and a non-empty external id has a non-empty identity key and
    would be kept, but the code drops it. *)
Lemma dedupe_ignores_external_id :
  Scraper.identity_key guid_only_article = "urn:guid:1"
  ∧ Scraper.dedupe_spec [guid_only_article] = [guid_only_article]
  ∧ Scraper.dedupe [guid_only_article] = [].
Proof. split_and!; vm_compute; reflexivity. Qed.

(** ** Rate limiting *)

Section RateLimitFacts.

Import Scraper.
Local Open Scope Z_scope.

Lemma check_daily_reset_fields (now : Z) (s : Limiter) :
  request_delay (check_daily_reset now s) = request_delay s
  ∧ last_request_time (check_daily_reset now s) = last_request_time s
  ∧ max_daily_requests (check_daily_reset now s) = max_daily_requests s.
Proof. unfold check_daily_reset. by destruct (1 <=? _). Qed.

Lemma check_daily_limit_fields (now : Z) (w : World) (s : Limiter) :
  request_delay (check_daily_limit now w s).2 = request_delay s
  ∧ last_request_time (check_daily_limit now w s).2 = last_request_time s
  ∧ max_daily_requests (check_daily_limit now w s).2 = max_daily_requests s.
Proof. unfold check_daily_limit. by destruct (_ <=? _). Qed.

(** The last phase: the call returns at [last_request_time + request_delay]
    if it had to sleep, and at once otherwise. *)
Lemma apply_request_delay_time (w : World) (s : Limiter) :
  let '(w', s') := apply_request_delay w s in
  time_time w' = last_request_time s'
  ∧ last_request_time s' = Z.max (time_time w) (last_request_time s + request_delay s)
  ∧ request_delay s' = request_delay s
  ∧ max_daily_requests s' = max_daily_requests s
  ∧ daily_request_count s' = daily_request_count s + 1
  ∧ daily_reset_time s' = daily_reset_time s.
Proof.
  unfold apply_request_delay, time_time. simpl.
  destruct (Z.ltb_spec (clock w - last_request_time s) (request_delay s));
    simpl; split_and!; try done; lia.
Qed.

Lemma apply_request_delay_slept (w : World) (s : Limiter) :
  ∃ later, slept (apply_request_delay w s).1 = slept w ++ later.
Proof.
  unfold apply_request_delay. destruct (_ <? _); simpl.
  - by eexists.
  - exists []. by rewrite app_nil_r.
Qed.

Lemma rate_limit_unfold (w : World) (s : Limiter) :
  _rate_limit w s
  = apply_request_delay
      (check_daily_limit (datetime_now w) w (check_daily_reset (datetime_now w) s)).1
      (check_daily_limit (datetime_now w) w (check_daily_reset (datetime_now w) s)).2.
Proof. unfold _rate_limit. by destruct (check_daily_limit _ _ _). Qed.

Lemma rate_limit_time (w : World) (s : Limiter) :
  time_time (_rate_limit w s).1 = last_request_time (_rate_limit w s).2
  ∧ last_request_time s + request_delay s ≤ last_request_time (_rate_limit w s).2
  ∧ request_delay (_rate_limit w s).2 = request_delay s
  ∧ max_daily_requests (_rate_limit w s).2 = max_daily_requests s.
Proof.
  rewrite rate_limit_unfold.
  set (now := datetime_now w). set (s0 := check_daily_reset now s).
  pose proof (check_daily_reset_fields now s) as (Hd0 & Hl0 & Hm0).
  pose proof (check_daily_limit_fields now w s0) as (Hd1 & Hl1 & Hm1).
  pose proof (apply_request_delay_time (check_daily_limit now w s0).1
                (check_daily_limit now w s0).2) as Hlast.
  destruct (apply_request_delay _ _) as [w' s'].
  destruct Hlast as (Htime & Hmax & Hd2 & Hm2 & _). simpl.
  fold s0 in Hd0, Hl0, Hm0. split_and!; [done | lia | congruence | congruence].
Qed.

(** C5.  Two successive [_rate_limit] calls return at least [request_delay]
    apart (1.0 s as configured by the constructor), however little time
    passes between them: each call returns at the instant it records as
    [last_request_time], and when less than the delay has passed since the
    last recorded request the call sleeps exactly the remaining delay, so
    that it returns exactly [request_delay] after that request. *)
Theorem rate_limit_spacing (w : World) (s : Limiter) (gap : Z) :
  let '(w1, s1) := _rate_limit w s in
  let '(w2, s2) := _rate_limit (elapse gap w1) s1 in
  time_time w1 = last_request_time s1
  ∧ time_time w2 = last_request_time s2
  ∧ last_request_time s1 + request_delay s1 ≤ last_request_time s2
  ∧ request_delay s1 = request_delay s
  ∧ request_delay (new_limiter w) = 1 * second
  ∧ (∀ w s,
       let time_since_last := time_time w - last_request_time s in
       time_since_last < request_delay s →
       let '(w', s') := apply_request_delay w s in
       slept w' = slept w ++ [request_delay s - time_since_last]
       ∧ time_time w' = time_time w + (request_delay s - time_since_last)
       ∧ last_request_time s' = last_request_time s + request_delay s).
Proof.
  pose proof (rate_limit_time w s) as (Ht1 & _ & Hd1 & _).
  destruct (_rate_limit w s) as [w1 s1]. simpl in *.
  pose proof (rate_limit_time (elapse gap w1) s1) as (Ht2 & Hsp & _ & _).
  destruct (_rate_limit (elapse gap w1) s1) as [w2 s2]. simpl in *.
  split_and!; [done | done | done | done | done |].
  intros w0 s0 Hsince. unfold apply_request_delay.
  apply Z.ltb_lt in Hsince. rewrite Hsince. simpl.
  unfold time_time. split_and!; [done | done | lia].
Qed.

(** The instant the quota branch sleeps until: the local midnight that
    follows [now], plus the sub-second part of [now]. *)
Lemma replace_hms0_next_day (now : Z) :
  let midnight := (now `div` day + 1) * day in
  midnight ≤ replace_hms0 now + 1 * day < midnight + second
  ∧ now < replace_hms0 now + 1 * day.
Proof.
  unfold replace_hms0, day, second. simpl.
  pose proof (Z.div_mod now 86400000000 ltac:(done)) as Hdiv.
  pose proof (Z.mod_pos_bound now 86400000000 ltac:(done)) as Hday.
  pose proof (Z.mod_pos_bound now 1000000 ltac:(done)) as Hsec.
  change (86400 * 1000000) with 86400000000. lia.
Qed.

Lemma rate_limit_count (w : World) (s : Limiter) :
  1 ≤ max_daily_requests s → 0 ≤ daily_request_count s →
  1 ≤ daily_request_count (_rate_limit w s).2 ≤ max_daily_requests s.
Proof.
  intros Hmax Hcount. rewrite rate_limit_unfold.
  set (now := datetime_now w).
  pose proof (apply_request_delay_time
                (check_daily_limit now w (check_daily_reset now s)).1
                (check_daily_limit now w (check_daily_reset now s)).2) as Hlast.
  destruct (apply_request_delay _ _) as [w' s'].
  destruct Hlast as (_ & _ & _ & _ & Hc & _). simpl. rewrite Hc. clear Hc.
  unfold check_daily_limit, check_daily_reset.
  destruct (1 <=? delta_days now (daily_reset_time s)); simpl.
  - destruct (Z.leb_spec (max_daily_requests s) 0); simpl; lia.
  - destruct (Z.leb_spec (max_daily_requests s) (daily_request_count s));
      simpl; lia.
Qed.

Lemma acquire_all_count (gaps : list Z) (w : World) (s : Limiter) :
  1 ≤ max_daily_requests s → 0 ≤ daily_request_count s →
  Forall (λ s', 1 ≤ daily_request_count s' ≤ max_daily_requests s)
         (acquire_all gaps w s).
Proof.
  revert w s. induction gaps as [|gap rest IH]; intros w s Hmax Hcount; simpl.
  - constructor.
  - pose proof (rate_limit_count (elapse gap w) s Hmax Hcount) as Hstep.
    pose proof (rate_limit_time (elapse gap w) s) as (_ & _ & _ & Hsame).
    destruct (_rate_limit (elapse gap w) s) as [w' s']. simpl in *.
    constructor; [done|]. rewrite <- Hsame. apply IH; lia.
Qed.

(** What one call does to the counter: a call that resets it leaves it at 1
    and moves the window start to the instant of the reset; any other call
    finds the counter below the maximum, adds one to it and leaves the window
    start alone. *)
Lemma rate_limit_counter (w : World) (s : Limiter) :
  1 ≤ max_daily_requests s →
  max_daily_requests (_rate_limit w s).2 = max_daily_requests s
  ∧ if resets w s
    then daily_request_count (_rate_limit w s).2 = 1
         ∧ datetime_now w ≤ daily_reset_time (_rate_limit w s).2
    else daily_request_count (_rate_limit w s).2 = daily_request_count s + 1
         ∧ daily_request_count s < max_daily_requests s
         ∧ daily_reset_time (_rate_limit w s).2 = daily_reset_time s.
Proof.
  intros Hmax.
  pose proof (rate_limit_time w s) as (_ & _ & _ & Hsame). split; [done|].
  clear Hsame. rewrite rate_limit_unfold.
  set (now := datetime_now w).
  pose proof (replace_hms0_next_day now) as [_ Hlater].
  pose proof (apply_request_delay_time
                (check_daily_limit now w (check_daily_reset now s)).1
                (check_daily_limit now w (check_daily_reset now s)).2) as Hlast.
  destruct (apply_request_delay _ _) as [w' s'].
  destruct Hlast as (_ & _ & _ & _ & Hc & Hr). cbn [snd]. rewrite Hc, Hr.
  clear Hc Hr. unfold resets, check_daily_limit, check_daily_reset. fold now.
  destruct (Z.leb_spec 1 (delta_days now (daily_reset_time s))); cbn [orb].
  - cbn [reset_counter max_daily_requests daily_request_count].
    destruct (Z.leb_spec (max_daily_requests s) 0); [lia|].
    cbn [snd reset_counter daily_request_count daily_reset_time]. lia.
  - destruct (Z.leb_spec (max_daily_requests s) (daily_request_count s)).
    + cbn [snd reset_counter daily_request_count daily_reset_time].
      unfold datetime_now at 1. cbn [time_sleep clock utc_offset].
      assert (now = clock w + utc_offset w) as Hnow by done. lia.
    + cbn [snd]. lia.
Qed.

Lemma acquire_trace_states (gaps : list Z) (w : World) (s : Limiter) :
  (acquire_trace gaps w s).*2 = acquire_all gaps w s.
Proof.
  revert w s. induction gaps as [|gap rest IH]; intros w s; [done|].
  cbn [acquire_trace acquire_all].
  destruct (_rate_limit (elapse gap w) s) as [w' s'].
  rewrite fmap_cons. by rewrite IH.
Qed.

(** The first call of a run, against the attributes the run starts from. *)
Lemma acquire_trace_head (gaps : list Z) (w : World) (s : Limiter)
    (b : bool) (s' : Limiter) :
  1 ≤ max_daily_requests s →
  acquire_trace gaps w s !! 0%nat = Some (b, s') →
  max_daily_requests s' = max_daily_requests s
  ∧ if b
    then daily_request_count s' = 1
    else daily_request_count s' = daily_request_count s + 1
         ∧ daily_request_count s < max_daily_requests s
         ∧ daily_reset_time s' = daily_reset_time s.
Proof.
  intros Hmax. destruct gaps as [|gap rest]; [done|]. cbn [acquire_trace].
  pose proof (rate_limit_counter (elapse gap w) s Hmax) as [Hsame Hstep].
  destruct (_rate_limit (elapse gap w) s) as [w' s1]. cbn [snd] in *.
  intros [= <- <-]. split; [done|].
  destruct (resets (elapse gap w) s); [by destruct Hstep | done].
Qed.

(** A later call, against the attributes the call before it left. *)
Lemma acquire_trace_step (gaps : list Z) (w : World) (s : Limiter) (k : nat)
    (b0 b : bool) (s0 s' : Limiter) :
  1 ≤ max_daily_requests s →
  acquire_trace gaps w s !! k = Some (b0, s0) →
  acquire_trace gaps w s !! S k = Some (b, s') →
  max_daily_requests s0 = max_daily_requests s
  ∧ if b
    then daily_request_count s' = 1
    else daily_request_count s' = daily_request_count s0 + 1
         ∧ daily_request_count s0 < max_daily_requests s
         ∧ daily_reset_time s' = daily_reset_time s0.
Proof.
  revert w s k. induction gaps as [|gap rest IH]; intros w s k Hmax; [done|].
  cbn [acquire_trace].
  pose proof (rate_limit_counter (elapse gap w) s Hmax) as [Hsame _].
  destruct (_rate_limit (elapse gap w) s) as [w1 s1]. cbn [snd] in Hsame.
  destruct k as [|k]; cbn [lookup list_lookup].
  - intros [= <- <-] Hnext.
    apply acquire_trace_head in Hnext as [_ Hnext]; [|lia].
    split; [done|]. destruct b; [done|]. by rewrite <- Hsame.
  - intros Hk Hnext.
    destruct (IH w1 s1 k ltac:(lia) Hk Hnext) as [Hm Hstep].
    split; [congruence|]. destruct b; [done|]. by rewrite <- Hsame.
Qed.

(** No reset among the calls up to the j-th: the counter has grown by one
    with each of them and is still within the maximum. *)
Lemma acquire_trace_first_window (gaps : list Z) (w : World) (s : Limiter)
    (j : nat) (bj : bool) (sj : Limiter) :
  1 ≤ max_daily_requests s →
  acquire_trace gaps w s !! j = Some (bj, sj) →
  (∀ k b sk, (k ≤ j)%nat → acquire_trace gaps w s !! k = Some (b, sk) → b = false) →
  daily_request_count sj = daily_request_count s + Z.of_nat j + 1
  ∧ daily_request_count s + Z.of_nat j + 1 ≤ max_daily_requests s.
Proof.
  intros Hmax. revert bj sj. induction j as [|j IH]; intros bj sj Hj Hnone.
  - pose proof (Hnone 0%nat bj sj ltac:(lia) Hj) as ->.
    apply acquire_trace_head in Hj as [_ Hj]; [|done]. lia.
  - pose proof (Hnone (S j) bj sj ltac:(lia) Hj) as ->.
    destruct (lookup_lt_is_Some_2 (acquire_trace gaps w s) j) as [[b0 s0] H0].
    { apply lookup_lt_Some in Hj. lia. }
    destruct (IH b0 s0 H0) as [Hc Hle].
    { intros k b sk Hk. apply Hnone. lia. }
    destruct (acquire_trace_step _ _ _ _ _ _ _ _ Hmax H0 Hj) as [_ Hstep].
    cbn beta iota in Hstep. lia.
Qed.

(** The i-th call reset the counter and none after it up to the j-th did:
    the counter is the number of calls from the i-th to the j-th, and is
    within the maximum. *)
Lemma acquire_trace_window (gaps : list Z) (w : World) (s : Limiter)
    (i j : nat) (si : Limiter) (bj : bool) (sj : Limiter) :
  1 ≤ max_daily_requests s →
  (i ≤ j)%nat →
  acquire_trace gaps w s !! i = Some (true, si) →
  acquire_trace gaps w s !! j = Some (bj, sj) →
  (∀ k b sk, (i < k ≤ j)%nat → acquire_trace gaps w s !! k = Some (b, sk) → b = false) →
  daily_request_count sj = Z.of_nat (j - i) + 1
  ∧ Z.of_nat (j - i) + 1 ≤ max_daily_requests s.
Proof.
  intros Hmax Hij Hi. revert bj sj Hij.
  induction j as [|j IH]; intros bj sj Hij Hj Hnone.
  - assert (i = 0%nat) as -> by lia. rewrite Hi in Hj. injection Hj as <- <-.
    apply acquire_trace_head in Hi as [_ Hi]; [|done].
    change (0 - 0)%nat with 0%nat. lia.
  - destruct (decide (i = S j)) as [->|Hne].
    + rewrite Hi in Hj. injection Hj as <- <-.
      destruct (lookup_lt_is_Some_2 (acquire_trace gaps w s) j) as [[b0 s0] H0].
      { apply lookup_lt_Some in Hi. lia. }
      destruct (acquire_trace_step _ _ _ _ _ _ _ _ Hmax H0 Hi) as [_ Hstep].
      cbn beta iota in Hstep. replace (S j - S j)%nat with 0%nat by lia. lia.
    + pose proof (Hnone (S j) bj sj ltac:(lia) Hj) as ->.
      destruct (lookup_lt_is_Some_2 (acquire_trace gaps w s) j) as [[b0 s0] H0].
      { apply lookup_lt_Some in Hj. lia. }
      destruct (IH b0 s0 ltac:(lia) H0) as [Hc Hle].
      { intros k b sk Hk. apply Hnone. lia. }
      destruct (acquire_trace_step _ _ _ _ _ _ _ _ Hmax H0 Hj) as [_ Hstep].
      cbn beta iota in Hstep. replace (S j - i)%nat with (S (j - i)) by lia. lia.
Qed.


End RateLimitFacts.



(** ** Generic web pages *)

Section WebsiteFacts.

Import Scraper.

Variable urljoin : string -> string -> string.

Local Abbreviation scrape_candidate := (scrape_candidate urljoin).

Lemma website_step_candidate (url : string) (page : Page)
    (articles : list ScrapedArticle) (article_elem : list Tag) :
  website_step urljoin url page articles article_elem
  = articles ++ option_list (scrape_candidate url page article_elem).
Proof.
  unfold scrape_candidate, website_step.
  destruct (Text.nonempty _ && Text.nonempty _); simpl; [done|].
  by rewrite app_nil_r.
Qed.

Lemma fold_website_step (url : string) (page : Page)
    (elems : list (list Tag)) (articles : list ScrapedArticle) :
  fold_left (website_step urljoin url page) elems articles
  = articles ++ omap (scrape_candidate url page) elems.
Proof.
  revert articles. induction elems as [|e rest IH]; intros articles; simpl.
  - by rewrite app_nil_r.
  - rewrite IH, website_step_candidate.
    destruct (scrape_candidate url page e); simpl.
    + by rewrite <- app_assoc.
    + by rewrite app_nil_r.
Qed.

Lemma scrape_page_omap (url : string) (page : Page) :
  scrape_page urljoin url page
  = omap (scrape_candidate url page) (take 20 (page_articles page)).
Proof. unfold scrape_page. by rewrite fold_website_step. Qed.

Lemma nonempty_true (s : string) : Text.nonempty s = true ↔ s ≠ "".
Proof. destruct s; simpl; split; done. Qed.

(** An element is kept exactly when it has both a title and a link. *)
Lemma scrape_candidate_Some (url : string) (page : Page)
    (article_elem : list Tag) (a : ScrapedArticle) :
  scrape_candidate url page article_elem = Some a
  ↔ candidate_title article_elem ≠ ""
    ∧ candidate_link urljoin url article_elem ≠ ""
    ∧ a = {| s_title := candidate_title article_elem;
             s_description := ""; s_content := "";
             s_url := candidate_link urljoin url article_elem;
             s_image_url := ""; s_published_at := "";
             s_source := match page_title page with
                         | Some title_string => title_string
                         | None => Some url
                         end |}.
Proof.
  unfold scrape_candidate, website_step.
  rewrite <- !nonempty_true.
  destruct (Text.nonempty (candidate_title article_elem));
    destruct (Text.nonempty (candidate_link urljoin url article_elem));
    simpl; split; try done; try naive_solver.
Qed.

Lemma scrape_candidate_None (url : string) (page : Page) (article_elem : list Tag) :
  scrape_candidate url page article_elem = None
  ↔ candidate_title article_elem = ""
    ∨ candidate_link urljoin url article_elem = "".
Proof.
  unfold scrape_candidate, website_step.
  pose proof (nonempty_true (candidate_title article_elem)) as Ht.
  pose proof (nonempty_true (candidate_link urljoin url article_elem)) as Hl.
  destruct (Text.nonempty (candidate_title article_elem));
    destruct (Text.nonempty (candidate_link urljoin url article_elem));
    simpl; split; try done.
  - intros [H | H]; [by apply Ht in H | by apply Hl in H].
  - intros _. right. destruct (candidate_link urljoin url article_elem); [done|].
    by destruct Hl as [_ Hl']; specialize (Hl' ltac:(done)).
  - intros _. left. destruct (candidate_title article_elem); [done|].
    by destruct Ht as [_ Ht']; specialize (Ht' ltac:(done)).
  - intros _. left. destruct (candidate_title article_elem); [done|].
    by destruct Ht as [_ Ht']; specialize (Ht' ltac:(done)).
Qed.

Lemma find_first {X} (f : X → bool) (before : list X) (x : X) (after : list X) :
  Forall (λ y, f y = false) before → f x = true →
  List.find f (before ++ x :: after) = Some x.
Proof.
  intros Hbefore Hx. induction Hbefore as [|y before Hy _ IH]; simpl.
  - by rewrite Hx.
  - by rewrite Hy.
Qed.

Lemma length_omap_le {X Y} (f : X → option Y) (l : list X) :
  (length (omap f l) ≤ length l)%nat.
Proof.
  induction l as [|x l IH]; csimpl; [done|].
  destruct (f x); csimpl; lia.
Qed.

Lemma candidate_title_first (before : list Tag) (t : Tag) (after : list Tag) :
  Forall (λ t', ¬ is_title_tag t') before → is_title_tag t →
  find_title_elem (before ++ t :: after) = Some t.
Proof.
  intros Hbefore Ht. apply find_first.
  - eapply Forall_impl; [exact Hbefore|]. intros t' Ht'.
    by apply bool_decide_eq_false.
  - by apply bool_decide_eq_true.
Qed.

Lemma candidate_link_first (before : list Tag) (t : Tag) (after : list Tag) :
  Forall (λ t', ¬ is_link_tag t') before → is_link_tag t →
  find_link_elem (before ++ t :: after) = Some t.
Proof.
  intros Hbefore [Hname Hhref]. apply find_first.
  - eapply Forall_impl; [exact Hbefore|]. intros t' Ht'. simpl.
    apply andb_false_iff.
    destruct (decide (tag_name t' = "a")) as [Ha|Ha].
    + right. apply bool_decide_eq_false. intros Hh. by apply Ht'.
    + left. by apply bool_decide_eq_false.
  - apply andb_true_iff. by rewrite !bool_decide_eq_true.
Qed.

Lemma find_none {X} (f : X → bool) (l : list X) :
  Forall (λ y, f y = false) l → List.find f l = None.
Proof.
  intros Hl. induction Hl as [|y l Hy _ IH]; simpl; [done|]. by rewrite Hy.
Qed.

Lemma find_title_elem_none (article_elem : list Tag) :
  Forall (λ t, ¬ is_title_tag t) article_elem →
  find_title_elem article_elem = None.
Proof.
  intros Hnone. apply find_none.
  eapply Forall_impl; [exact Hnone|]. intros t Ht.
  by apply bool_decide_eq_false.
Qed.

Lemma find_link_elem_none (article_elem : list Tag) :
  Forall (λ t, ¬ is_link_tag t) article_elem →
  find_link_elem article_elem = None.
Proof.
  intros Hnone. apply find_none.
  eapply Forall_impl; [exact Hnone|]. intros t Ht. simpl.
  apply andb_false_iff.
  destruct (decide (tag_name t = "a")) as [Ha|Ha].
  - right. apply bool_decide_eq_false. intros Hh. by apply Ht.
  - left. by apply bool_decide_eq_false.
Qed.

(** A link element is an [a], which [find(['h1', 'h2', 'h3', 'a'])] stops
    at. *)
Lemma link_tag_title_tag (t : Tag) : is_link_tag t → is_title_tag t.
Proof. intros [Ha _]. unfold is_title_tag. rewrite Ha. set_solver. Qed.

Lemma candidate_link_empty (url : string) (article_elem : list Tag) :
  candidate_href article_elem = "" →
  candidate_link urljoin url article_elem = "".
Proof. unfold candidate_link. by intros ->. Qed.


End WebsiteFacts.


(** ** The pipeline *)

Section PipelineFacts.

Import Pipeline.

Context {A : Type}.
Variable category_of : A → string.
Variable self : Components (A := A).

Local Abbreviation save_to_database := (save_to_database category_of self).
Local Abbreviation run_full_pipeline := (run_full_pipeline category_of self).

(** Nothing ever writes to the [errors] list of the results. *)
Lemma run_full_pipeline_errors (t_start t_end : Z) (categories : list string)
    (save : bool) :
  errors (run_full_pipeline t_start t_end categories save).1 = [].
Proof.
  unfold Pipeline.run_full_pipeline.
  destruct (run_ingestor self _) as [raw_articles lg1].
  destruct (fold_left count_raw raw_articles _) as [cats total].
  destruct (fold_left (process_category self) raw_articles _)
    as [[all_processed cats'] lg2].
  destruct (run_asset_automator self all_processed) as [final_articles lg3].
  by destruct (if save then _ else _) as [saved lg4].
Qed.

Lemma run_full_pipeline_saved (t_start t_end : Z) (categories : list string) :
  ∃ articles,
    saved_articles (run_full_pipeline t_start t_end categories true).1
    = (save_to_database articles).1.
Proof.
  unfold Pipeline.run_full_pipeline.
  destruct (run_ingestor self _) as [raw_articles lg1].
  destruct (fold_left count_raw raw_articles _) as [cats total].
  destruct (fold_left (process_category self) raw_articles _)
    as [[all_processed cats'] lg2].
  destruct (run_asset_automator self all_processed) as [final_articles lg3].
  exists final_articles.
  by destruct (Pipeline.save_to_database category_of self final_articles).
Qed.

Lemma save_step_fails (d : Database) (saved : nat) (lg : log) (article : A) :
  db self = Some d → persistence_fails category_of self →
  (save_step category_of d (saved, lg) article).1 = saved.
Proof.
  intros Hdb Hfails. unfold persistence_fails in Hfails. rewrite Hdb in Hfails.
  specialize (Hfails article). unfold save_step.
  destruct (execute_query d (category_of article)) as [[|category_id rows]|e];
    [done | | done].
  by destruct (insert_article d category_id article).
Qed.

Lemma fold_save_step_fails (d : Database) (articles : list A) (saved : nat)
    (lg : log) :
  db self = Some d → persistence_fails category_of self →
  (fold_left (save_step category_of d) articles (saved, lg)).1 = saved.
Proof.
  intros Hdb Hfails. revert saved lg.
  induction articles as [|article rest IH]; intros saved lg;
    cbn [fold_left]; [done|].
  pose proof (save_step_fails d saved lg article Hdb Hfails) as Hstep.
  destruct (save_step category_of d (saved, lg) article) as [saved' lg'].
  simpl in Hstep. subst saved'. apply IH.
Qed.

Lemma save_to_database_fails (articles : list A) :
  persistence_fails category_of self → (save_to_database articles).1 = 0%nat.
Proof.
  intros Hfails. unfold Pipeline.save_to_database.
  destruct (db self) as [d|] eqn:Hdb; [|done].
  by apply fold_save_step_fails.
Qed.

(** When every category lookup raises, each article costs one logged error. *)
Lemma fold_save_step_raises (d : Database) (articles : list A) (saved : nat)
    (lg : log) :
  (∀ article, ∃ e, execute_query d (category_of article) = Raise e) →
  fold_left (save_step category_of d) articles (saved, lg)
  = (saved, lg ++ replicate (length articles) (ERROR, "Error saving article")).
Proof.
  intros Hraises. revert lg.
  induction articles as [|article rest IH]; intros lg; simpl.
  - by rewrite app_nil_r.
  - destruct (Hraises article) as [e He]. rewrite He, IH.
    by rewrite <- app_assoc.
Qed.


End PipelineFacts.



(** ** Sectors *)

Section RoutingFacts.

Import Text Processor Routing.

Lemma first_sector_label (text : string) (config : list (string * list string))
    (sector : string) :
  first_sector text config = Some sector → sector ∈ fst <$> config.
Proof.
  induction config as [|[s ks] rest IH]; simpl; [done|].
  destruct (any_keyword_in text ks).
  - intros [= <-]. left.
  - intros Hrest. right. by apply IH.
Qed.

Lemma categorize_article_with_label (config : list (string * list string))
    (title description : pyval) :
  categorize_article_with config title description ∈ sector_labels config.
Proof.
  unfold categorize_article_with, sector_labels.
  destruct (first_sector _ config) as [sector|] eqn:Hfirst; simpl.
  - apply elem_of_app. left. by eapply first_sector_label.
  - apply elem_of_app. right. left.
Qed.

(** X1.  Whatever the title and the description, the category is one of the
    configured sector names or 'general'; with the program's keyword table,
    one of farming, tech, politics, hospitality and general. *)
Theorem categorize_article_label :
  (∀ config title description,
     categorize_article_with config title description ∈ sector_labels config)
  ∧ (∀ title description,
       categorize_article title description
       ∈ ["farming"; "tech"; "politics"; "hospitality"; "general"]).
Proof.
  split; [apply categorize_article_with_label|].
  intros title description.
  apply (categorize_article_with_label sector_keywords).
Qed.

Lemma lower_ascii_not_upper (c : ascii) : is_upper (lower_ascii c) = false.
Proof. destruct c as [[] [] [] [] [] [] [] []]; reflexivity. Qed.

Lemma has_upper_lower (s : string) : has_upper (lower s) = false.
Proof.
  induction s as [|c s IH]; simpl; [done|].
  by rewrite lower_ascii_not_upper, IH.
Qed.

Lemma has_upper_append (a b : string) :
  has_upper (a +:+ b) = has_upper a || has_upper b.
Proof.
  induction a as [|c a IH]; [done|].
  rewrite append_cons. simpl. by rewrite IH, orb_assoc.
Qed.

(** A keyword with a capital letter is never found in lower-cased text. *)
Lemma cased_keyword_not_in_lower (k s : string) :
  has_upper k = true → contains k (lower s) = false.
Proof.
  intros Hk. apply contains_false_spec. intros (pre & post & Hs).
  pose proof (has_upper_lower s) as Hlow.
  rewrite Hs, !has_upper_append, Hk in Hlow.
  by rewrite orb_true_r in Hlow.
Qed.

Lemma any_keyword_in_without_cased (s : string) (keywords : list string) :
  any_keyword_in (lower s) (filter (λ k, has_upper k = false) keywords)
  = any_keyword_in (lower s) keywords.
Proof.
  induction keywords as [|k rest IH]; [done|].
  rewrite filter_cons. destruct (decide (has_upper k = false)) as [Hk|Hk]; simpl.
  - by rewrite IH.
  - rewrite IH. apply not_false_iff_true in Hk.
    by rewrite (cased_keyword_not_in_lower k s Hk).
Qed.

Lemma first_sector_without_cased (s : string) (config : list (string * list string)) :
  first_sector (lower s) (without_cased_keywords config)
  = first_sector (lower s) config.
Proof.
  induction config as [|[sector ks] rest IH]; [done|].
  unfold without_cased_keywords in *. rewrite fmap_cons. simpl.
  by rewrite any_keyword_in_without_cased, IH.
Qed.

(** X2.  Keywords that hold a capital letter never match, since the text is
    lower-cased and the keywords are not: every configuration categorizes
    exactly as it would without them.  In the program's table these are 'AI'
    and 'Knesset'; a headline whose only keyword is one of them goes to
    'general'. *)
Theorem categorize_article_cased_keywords_dead :
  (∀ config title description,
     categorize_article_with config title description
     = categorize_article_with (without_cased_keywords config) title description)
  ∧ without_cased_keywords sector_keywords
    = [ ("farming", ["agriculture"; "farming"; "farmers"; "crops"; "livestock";
                     "agtech"; "agricultural"]);
        ("tech", ["technology"; "tech"; "startup"; "innovation";
                  "cybersecurity"; "software"; "digital"]);
        ("politics", ["politics"; "government"; "election"; "policy";
                      "minister"; "parliament"]);
        ("hospitality", ["hotel"; "tourism"; "restaurant"; "hospitality";
                         "travel"; "accommodation"]) ]
  ∧ categorize_article (Some "Knesset passes AI bill") (Some "") = "general".
Proof.
  split_and!; [| reflexivity | reflexivity].
  intros config title description.
  unfold categorize_article_with, categorize_text.
  by rewrite first_sector_without_cased.
Qed.

End RoutingFacts.

(** ** Batches *)

Section BatchFacts.

Import Text Processor Routing.

Variable sha256_hexdigest : string -> string.
Variable json_loads : string -> parsed.

Local Abbreviation process_article :=
  (process_article sha256_hexdigest json_loads).
Local Abbreviation process_batch :=
  (process_batch sha256_hexdigest json_loads).

Lemma process_article_fields (env : Env) (a : Article) (p : ProcessedArticle) :
  process_article env a = Ok p →
  newsapi_shaped a
  ∧ p_url p = get_or "" (url a)
  ∧ p_title p = get_or "" (title a)
  ∧ p_category p
    = categorize_article (get_or "" (title a)) (get_or "" (description a)).
Proof.
  unfold Processor.process_article, newsapi_shaped.
  destruct (source a); simpl; try done; by intros [= <-].
Qed.

Lemma process_batch_from_shaped (envs : nat → Env) (i : nat)
    (articles : list Article) :
  let out := process_batch_from sha256_hexdigest json_loads envs i articles in
  p_url <$> out = (λ a, get_or "" (url a)) <$> filter newsapi_shaped articles
  ∧ p_title <$> out = (λ a, get_or "" (title a)) <$> filter newsapi_shaped articles
  ∧ Forall (λ p, p_category p ∈ ["farming"; "tech"; "politics"; "hospitality";
                                  "general"]) out.
Proof.
  revert i. induction articles as [|a rest IH]; intros i; simpl; [done|].
  destruct (IH (S i)) as (Hurl & Htitle & Hcat).
  rewrite filter_cons.
  destruct (process_article (envs i) a) as [p|e] eqn:Hp.
  - apply process_article_fields in Hp as (Hshape & Hu & Ht & Hc).
    rewrite decide_True by done. rewrite !fmap_cons.
    split_and!; [by f_equal | by f_equal |].
    constructor; [|done]. rewrite Hc.
    apply (categorize_article_with_label sector_keywords).
  - rewrite decide_False; [done|]. intros Hshape.
    destruct (process_article_returns sha256_hexdigest json_loads (envs i) a Hshape)
      as [p Hp']. congruence.
Qed.

(** X3.  [process_batch] keeps the order of its input and leaves out exactly
    the articles on which [process_article] raises, those whose source is
    not shaped as NewsAPI sends it: the urls and titles of the output are
    those of the well-shaped inputs, in order.  A batch of well-shaped
    articles loses none. *)
Theorem process_batch_keeps_shaped (envs : nat → Env) (articles : list Article) :
  let out := process_batch envs articles in
  p_url <$> out = (λ a, get_or "" (url a)) <$> filter newsapi_shaped articles
  ∧ p_title <$> out = (λ a, get_or "" (title a)) <$> filter newsapi_shaped articles
  ∧ (length out ≤ length articles)%nat
  ∧ (Forall newsapi_shaped articles → length out = length articles).
Proof.
  destruct (process_batch_from_shaped envs 0 articles) as (Hurl & Htitle & _).
  unfold Processor.process_batch. split_and!; [done | done | |].
  - apply (f_equal length) in Hurl. rewrite !length_fmap in Hurl.
    rewrite Hurl. apply length_filter.
  - intros Hall. apply (f_equal length) in Hurl. rewrite !length_fmap in Hurl.
    rewrite Hurl. f_equal. clear Hurl Htitle.
    induction Hall as [|a rest Ha _ IH]; [done|].
    rewrite filter_cons, decide_True by done. by f_equal.
Qed.

Lemma sum_list_fmap_zero {X} (names : list X) :
  sum_list ((λ _, 0%nat) <$> names) = 0%nat.
Proof. induction names as [|n names IH]; csimpl; [done | by rewrite IH]. Qed.

Lemma sum_list_fmap_add {X} (f g : X → nat) (names : list X) :
  sum_list ((λ n, (f n + g n)%nat) <$> names)
  = (sum_list (f <$> names) + sum_list (g <$> names))%nat.
Proof.
  induction names as [|n names IH]; csimpl; [done|]. rewrite IH. lia.
Qed.

Lemma sum_list_indicator (k : string) (names : list string) :
  NoDup names → k ∈ names →
  sum_list ((λ n, if decide (k = n) then 1%nat else 0%nat) <$> names) = 1%nat.
Proof.
  induction 1 as [|n names Hn Hnodup IH]; [by intros ?%elem_of_nil|].
  intros [-> | Hk]%elem_of_cons; csimpl.
  - rewrite decide_True by done. f_equal.
    erewrite list_fmap_ext; [apply sum_list_fmap_zero|].
    intros i m Hm. simpl. apply list_elem_of_lookup_2 in Hm.
    rewrite decide_False; [done|]. by intros ->.
  - rewrite decide_False; [by rewrite IH|]. by intros ->.
Qed.

(** A list whose elements are labelled by [names] splits into the sub-lists
    of the labels. *)
Lemma length_filter_partition {X} (f : X → string) (names : list string)
    (l : list X) :
  NoDup names → Forall (λ x, f x ∈ names) l →
  length l = sum_list ((λ n, length (filter (λ x, f x = n) l)) <$> names).
Proof.
  intros Hnodup. induction 1 as [|x l Hx _ IH]; csimpl.
  - by rewrite sum_list_fmap_zero.
  - trans (sum_list ((λ n, ((if decide (f x = n) then 1 else 0)
                            + length (filter (λ y, f y = n) l))%nat) <$> names)).
    + rewrite sum_list_fmap_add, (sum_list_indicator (f x) names Hnodup Hx).
      by rewrite <- IH.
    + f_equal. apply list_fmap_ext. intros i n Hn. rewrite filter_cons.
      by destruct (decide (f x = n)).
Qed.

Lemma lower_ascii_idemp (c : ascii) : lower_ascii (lower_ascii c) = lower_ascii c.
Proof. destruct c as [[] [] [] [] [] [] [] []]; reflexivity. Qed.

Lemma lower_idemp (s : string) : lower (lower s) = lower s.
Proof.
  induction s as [|c s IH]; simpl; [done|].
  by rewrite lower_ascii_idemp, IH.
Qed.

(** X4.  The five sectors split a processed batch: every processed article
    is returned by [filter_by_sector] for exactly one of farming, tech,
    politics, hospitality and general, so the five lengths add up to the
    length of the batch.  The sector argument is taken without regard to
    case, and each article returned has that sector as category. *)
Theorem filter_by_sector_partition (envs : nat → Env) (articles : list Article) :
  let out := process_batch envs articles in
  length out
  = sum_list ((λ sector, length (filter_by_sector out sector))
                <$> ["farming"; "tech"; "politics"; "hospitality"; "general"])
  ∧ (∀ sector, filter_by_sector out (lower sector) = filter_by_sector out sector)
  ∧ (∀ sector p, p ∈ filter_by_sector out sector → p_category p = lower sector).
Proof.
  destruct (process_batch_from_shaped envs 0 articles) as (_ & _ & Hcat).
  unfold Processor.process_batch. split_and!.
  - rewrite (length_filter_partition p_category
               ["farming"; "tech"; "politics"; "hospitality"; "general"]); [done | |done].
    repeat (constructor; [set_solver|]). constructor.
  - intros sector. unfold filter_by_sector. by rewrite lower_idemp.
  - intros sector p Hp. unfold filter_by_sector in Hp.
    by apply list_elem_of_filter in Hp as [Hc _].
Qed.

Lemma length_append (a b : string) :
  String.length (a +:+ b) = (String.length a + String.length b)%nat.
Proof.
  induction a as [|c a IH]; [done|]. rewrite append_cons. simpl. by rewrite IH.
Qed.

Lemma length_substring_0 (m : nat) (s : string) :
  String.length (String.substring 0 m s) = (m `min` String.length s)%nat.
Proof.
  revert s. induction m as [|m IH]; intros [|c s]; simpl; try done.
  by rewrite IH.
Qed.


End BatchFacts.

(** ** Rate limiting: waiting no longer than needed *)

Section RateLimitMoreFacts.

Import Scraper.
Local Open Scope Z_scope.

Lemma delta_days_small (a b : Z) : 0 ≤ a - b < day → delta_days a b = 0.
Proof. intros Hsmall. unfold delta_days. by apply Z.div_small. Qed.

(** X6.  While the quota is not used up, a call waits for the spacing only:
    it returns at the later of the current instant and [last_request_time +
    request_delay], so not at all delayed when the last request is at least
    [request_delay] old, and the counter goes up by one.  A call made a day
    or more after the window began starts a new window at the current time
    with the counter at 1, without any wait for the quota even if it had been
    used up. *)
Theorem rate_limit_waits_for_spacing_only (w : World) (s : Limiter) :
  let now := datetime_now w in
  let '(w', s') := _rate_limit w s in
  (delta_days now (daily_reset_time s) < 1 →
   daily_request_count s < max_daily_requests s →
   time_time w' = Z.max (time_time w) (last_request_time s + request_delay s)
   ∧ daily_request_count s' = daily_request_count s + 1
   ∧ daily_reset_time s' = daily_reset_time s
   ∧ (request_delay s ≤ time_time w - last_request_time s →
      w' = w ∧ s' = record_request (time_time w) s))
  ∧ (1 ≤ delta_days now (daily_reset_time s) → 1 ≤ max_daily_requests s →
     time_time w' = Z.max (time_time w) (last_request_time s + request_delay s)
     ∧ daily_request_count s' = 1
     ∧ daily_reset_time s' = now).
Proof.
  intros now. destruct (_rate_limit w s) as [w' s'] eqn:Hrl.
  unfold _rate_limit in Hrl. fold now in Hrl. split.
  - intros Hday Hquota.
    unfold check_daily_reset in Hrl. apply Z.leb_gt in Hday. rewrite Hday in Hrl.
    unfold check_daily_limit in Hrl. apply Z.leb_gt in Hquota.
    rewrite Hquota in Hrl. unfold apply_request_delay in Hrl.
    destruct (Z.ltb_spec (time_time w - last_request_time s) (request_delay s));
      injection Hrl as <- <-; unfold time_time in *; simpl;
      split_and!; try done; lia.
  - intros Hday Hmax.
    unfold check_daily_reset in Hrl. apply Z.leb_le in Hday. rewrite Hday in Hrl.
    unfold check_daily_limit in Hrl. simpl in Hrl.
    assert ((max_daily_requests s <=? 0) = false) as Hle by (apply Z.leb_gt; lia).
    rewrite Hle in Hrl. unfold apply_request_delay in Hrl. simpl in Hrl.
    destruct (Z.ltb_spec (time_time w - last_request_time s) (request_delay s));
      injection Hrl as <- <-; unfold time_time in *; simpl;
      split_and!; try done; lia.
Qed.

Lemma rate_limit_in_window (w : World) (s : Limiter) :
  delta_days (datetime_now w) (daily_reset_time s) < 1 →
  daily_request_count s < max_daily_requests s →
  _rate_limit w s = apply_request_delay w s.
Proof.
  intros Hday Hquota. unfold _rate_limit, check_daily_reset, check_daily_limit.
  apply Z.leb_gt in Hday. rewrite Hday.
  apply Z.leb_gt in Hquota. by rewrite Hquota.
Qed.

Lemma apply_request_delay_offset (w : World) (s : Limiter) :
  utc_offset (apply_request_delay w s).1 = utc_offset w.
Proof. unfold apply_request_delay. by destruct (_ <? _). Qed.

Lemma acquire_all_cons (gap : Z) (rest : list Z) (w : World) (s : Limiter) :
  acquire_all (gap :: rest) w s
  = (_rate_limit (elapse gap w) s).2
    :: acquire_all rest (_rate_limit (elapse gap w) s).1
         (_rate_limit (elapse gap w) s).2.
Proof. simpl. by destruct (_rate_limit (elapse gap w) s). Qed.

(** A burst of calls right after a request, inside the window and the quota:
    each goes out exactly one [request_delay] after the one before. *)
Lemma request_times_burst (n : nat) (w : World) (s : Limiter) :
  0 < request_delay s →
  last_request_time s = time_time w →
  0 ≤ datetime_now w - daily_reset_time s →
  datetime_now w - daily_reset_time s + Z.of_nat n * request_delay s < day →
  daily_request_count s + Z.of_nat n ≤ max_daily_requests s →
  request_times (replicate n 0) w s
  = (λ i : nat, time_time w + (Z.of_nat i + 1) * request_delay s) <$> seq 0 n.
Proof.
  revert w s. induction n as [|n IH]; intros w s Hdelay Hlast Hreset Hday Hquota;
    [done|].
  unfold request_times. cbn [replicate]. rewrite acquire_all_cons.
  assert (datetime_now (elapse 0 w) = datetime_now w) as Hnow
    by (unfold datetime_now; simpl; lia).
  assert (time_time (elapse 0 w) = time_time w) as Htime
    by (unfold time_time; simpl; lia).
  rewrite rate_limit_in_window;
    [| rewrite Hnow, delta_days_small; lia | lia].
  pose proof (apply_request_delay_time (elapse 0 w) s) as Hstep.
  pose proof (apply_request_delay_offset (elapse 0 w) s) as Hoff.
  destruct (apply_request_delay (elapse 0 w) s) as [w1 s1].
  destruct Hstep as (Ht1 & Hl1 & Hd1 & Hm1 & Hc1 & Hr1).
  cbn [fst snd] in *. rewrite Htime in Hl1.
  assert (last_request_time s1 = time_time w + request_delay s) as Hl1' by lia.
  rewrite fmap_cons. cbn [seq]. rewrite fmap_cons. f_equal; [simpl; lia|].
  fold (request_times (replicate n 0) w1 s1).
  rewrite IH.
  - rewrite <- fmap_S_seq, <- list_fmap_compose. apply list_fmap_ext.
    intros i k Hk. simpl. lia.
  - lia.
  - lia.
  - unfold datetime_now, time_time in *. simpl in Hoff. lia.
  - unfold datetime_now, time_time in *. simpl in Hoff. lia.
  - lia.
Qed.

(** X7.  The requests of a new scraper called [n] times in a row, for [n] up
    to the hundred of the daily quota, go out at once for the first and then
    exactly one second apart: the i-th at the starting instant plus [i]
    seconds. *)
Theorem request_times_new_scraper (n : nat) (w : World) :
  (n ≤ 100)%nat → 1 * second ≤ time_time w →
  request_times (replicate n 0) w (new_limiter w)
  = (λ i : nat, time_time w + Z.of_nat i * second) <$> seq 0 n.
Proof.
  intros Hn Hclock. destruct n as [|n]; [done|].
  unfold request_times. cbn [replicate]. rewrite acquire_all_cons.
  assert (datetime_now (elapse 0 w) = datetime_now w) as Hnow
    by (unfold datetime_now; simpl; lia).
  assert (time_time (elapse 0 w) = time_time w) as Htime
    by (unfold time_time; simpl; lia).
  rewrite rate_limit_in_window;
    [| rewrite Hnow, delta_days_small; simpl; unfold day, second; lia
     | simpl; lia].
  pose proof (apply_request_delay_time (elapse 0 w) (new_limiter w)) as Hstep.
  pose proof (apply_request_delay_offset (elapse 0 w) (new_limiter w)) as Hoff.
  destruct (apply_request_delay (elapse 0 w) (new_limiter w)) as [w1 s1].
  destruct Hstep as (Ht1 & Hl1 & Hd1 & Hm1 & Hc1 & Hr1).
  cbn [fst snd] in *. rewrite Htime in Hl1. simpl in Hl1, Hd1, Hm1, Hc1, Hr1.
  assert (last_request_time s1 = time_time w) as Hl1' by lia.
  rewrite fmap_cons. cbn [seq]. rewrite fmap_cons. f_equal; [simpl; lia|].
  fold (request_times (replicate n 0) w1 s1).
  rewrite request_times_burst.
  - rewrite <- fmap_S_seq, <- list_fmap_compose. apply list_fmap_ext.
    intros i k Hk. simpl. rewrite Hd1. unfold second. lia.
  - rewrite Hd1. unfold second. lia.
  - lia.
  - unfold datetime_now, time_time in *. simpl in Hoff. lia.
  - unfold datetime_now, time_time in *. simpl in Hoff.
    rewrite Hd1. unfold day, second in *. lia.
  - lia.
Qed.

End RateLimitMoreFacts.

Lemma request_times_new_scraper_witness :
  Scraper.request_times (replicate 100 0%Z) evening (Scraper.new_limiter evening)
  = (λ i : nat, (Scraper.time_time evening + Z.of_nat i * Scraper.second)%Z)
      <$> seq 0 100.
Proof.
  apply (request_times_new_scraper 100 evening); [lia | vm_compute; discriminate].
Defined.

(** ** Feeds *)

Section FeedFacts.

Import Scraper Feed.

Lemma first_image_url_found (before : list Media) (m : Media) (after : list Media) :
  Forall (λ m', is_image m' = false) before → is_image m = true →
  first_image_url (before ++ m :: after) = Some (default "" (media_url m)).
Proof.
  intros Hbefore Hm. induction Hbefore as [|m' before Hm' _ IH]; simpl.
  - by rewrite Hm.
  - by rewrite Hm'.
Qed.

Lemma first_image_url_none (medias : list Media) :
  Forall (λ m, is_image m = false) medias → first_image_url medias = None.
Proof.
  induction 1 as [|m medias Hm _ IH]; simpl; [done|]. by rewrite Hm.
Qed.

(** X8.  The image of a feed entry is looked for in three places, in order.
    The first [media_content] item whose type starts with "image" decides,
    with its url or [''] if it has none, whatever thumbnails and enclosures
    there are.  Failing that, a [media_thumbnail] key decides: the url of its
    first item, of whatever type, and an [IndexError] if the list is empty.
    Failing that too, the first image among the [enclosures], and [''] when
    there is none. *)
Theorem extract_rss_image_order (entry : Entry) :
  (∀ before m after,
     media_content entry = Some (before ++ m :: after) →
     Forall (λ m', is_image m' = false) before → is_image m = true →
     _extract_rss_image entry = Ok (default "" (media_url m)))
  ∧ (no_media_image entry →
     (∀ thumbnail rest, media_thumbnail entry = Some (thumbnail :: rest) →
        _extract_rss_image entry = Ok (default "" (media_url thumbnail)))
     ∧ (media_thumbnail entry = Some [] →
        _extract_rss_image entry = Raise IndexError)
     ∧ (media_thumbnail entry = None →
        (∀ before m after,
           enclosures entry = Some (before ++ m :: after) →
           Forall (λ m', is_image m' = false) before → is_image m = true →
           _extract_rss_image entry = Ok (default "" (media_url m)))
        ∧ (match enclosures entry with
           | Some medias => Forall (λ m, is_image m = false) medias
           | None => True
           end → _extract_rss_image entry = Ok ""))).
Proof.
  unfold _extract_rss_image, no_media_image. split.
  - intros before m after -> Hbefore Hm.
    by rewrite (first_image_url_found _ _ _ Hbefore Hm).
  - intros Hnone.
    assert (match media_content entry with
            | Some medias => first_image_url medias
            | None => None
            end = None) as ->.
    { destruct (media_content entry); [by apply first_image_url_none | done]. }
    split_and!.
    + by intros thumbnail rest ->.
    + by intros ->.
    + intros ->. split.
      * intros before m after -> Hbefore Hm.
        by rewrite (first_image_url_found _ _ _ Hbefore Hm).
      * intros Hencl.
        destruct (enclosures entry); [|done].
        by rewrite first_image_url_none.
Qed.

Lemma rss_loop_acc (feed : ParsedFeed) (todo : list Entry)
    (articles : list FeedArticle) :
  rss_loop feed todo articles = articles ++ rss_loop feed todo [].
Proof.
  revert articles. induction todo as [|entry rest IH]; intros articles; simpl.
  - by rewrite app_nil_r.
  - destruct (rss_article feed entry) as [article|e]; [|by rewrite app_nil_r].
    rewrite IH, (IH [article]). by rewrite <- app_assoc.
Qed.

(** The loop converts the longest run of entries that do not raise. *)
Lemma rss_loop_prefix (feed : ParsedFeed) (todo : list Entry) :
  ∃ good bad,
    todo = good ++ bad
    ∧ Forall2 (λ entry article, rss_article feed entry = Ok article)
              good (rss_loop feed todo [])
    ∧ (bad = [] ∨ ∃ entry rest e, bad = entry :: rest
                                  ∧ rss_article feed entry = Raise e).
Proof.
  induction todo as [|entry rest IH]; simpl.
  - exists [], []. split_and!; [done | constructor | by left].
  - destruct (rss_article feed entry) as [article|e] eqn:Harticle.
    + destruct IH as (good & bad & -> & Hgood & Hbad).
      exists (entry :: good), bad. rewrite rss_loop_acc.
      split_and!; [done | by constructor | done].
    + exists [], (entry :: rest). split_and!; [done | constructor |].
      right. by exists entry, rest, e.
Qed.

(** X9.  [fetch_from_rss] returns at most 50 articles: those of the entries
    among the first 50 of the feed that come before the first entry on which
    building the article raises (an empty [content] or [media_thumbnail]
    list), in feed order, and none at all when the parse itself raises.  Each
    article has the entry's link as url and, as external id, the entry's id
    or else its link. *)
Theorem fetch_from_rss_prefix (w : World) (s : Limiter) (parsed : option ParsedFeed) :
  let articles := (fetch_from_rss w s parsed).2 in
  (length articles ≤ 50)%nat
  ∧ (parsed = None → articles = [])
  ∧ (∀ feed, parsed = Some feed →
       ∃ good bad,
         take 50 (entries feed) = good ++ bad
         ∧ Forall2 (λ entry article,
                      rss_article feed entry = Ok article
                      ∧ f_url article = default "" (entry_link entry)
                      ∧ f_external_id article
                        = default (f_url article) (entry_id entry))
                   good articles
         ∧ (bad = [] ∨ ∃ entry rest e, bad = entry :: rest
                                       ∧ rss_article feed entry = Raise e)).
Proof.
  unfold fetch_from_rss. destruct (_rate_limit w s) as [w' s'].
  destruct parsed as [feed|]; simpl.
  - destruct (rss_loop_prefix feed (take 50 (entries feed)))
      as (good & bad & Hsplit & Hgood & Hbad).
    split_and!; [| done |].
    + apply Forall2_length in Hgood. rewrite <- Hgood.
      apply (f_equal length) in Hsplit.
      rewrite length_take, length_app in Hsplit. lia.
    + intros feed' [= <-]. exists good, bad. split_and!; [done | | done].
      eapply Forall2_impl; [exact Hgood|]. intros entry article Harticle.
      split; [done|]. unfold rss_article in Harticle.
      destruct (content_value entry); [|done].
      destruct (_extract_rss_image entry); [|done].
      by injection Harticle as <-.
  - split_and!; [lia | done | done].
Qed.

End FeedFacts.

(** ** All sectors *)

Section IngestFacts.

Import Scraper Ingest SectorDict.

Lemma append_to_known (sector : string) (article : Article)
    (all_articles : list (string * list Article)) :
  sector ∈ all_articles.*1 →
  ∃ all', append_to sector article all_articles = Ok all'.
Proof.
  induction all_articles as [|[k l] rest IH]; simpl.
  - by intros ?%elem_of_nil.
  - intros Hin. destruct (bool_decide_reflect (k = sector)) as [->|Hne]; [by eexists|].
    apply elem_of_cons in Hin as [Heq|Hin]; [by destruct Hne|].
    destruct (IH Hin) as [rest' ->]. by eexists.
Qed.

Lemma append_to_unknown (sector : string) (article : Article)
    (all_articles : list (string * list Article)) :
  sector ∉ all_articles.*1 →
  append_to sector article all_articles = Raise (KeyError sector).
Proof.
  induction all_articles as [|[k l] rest IH]; simpl; [done|].
  intros Hnotin. apply not_elem_of_cons in Hnotin as [Hne Hnotin].
  rewrite bool_decide_eq_false_2 by done. by rewrite IH.
Qed.

Lemma append_to_Ok (key : string) (article : Article)
    (all_articles all' : list (string * list Article)) :
  append_to key article all_articles = Ok all' →
  all'.*1 = all_articles.*1
  ∧ (sector article = Str key → tagged all_articles → tagged all').
Proof.
  revert all'. induction all_articles as [|[k l] rest IH]; intros all'; simpl; [done|].
  destruct (bool_decide_reflect (k = key)) as [->|Hne].
  - intros [= <-]. split; [done|]. intros Htag Hall.
    apply Forall_cons in Hall as [Hl Hrest]. constructor; [|done]. simpl in *.
    apply Forall_app. split; [done|]. by constructor.
  - destruct (append_to key article rest) as [rest'|e]; simpl; [|done].
    intros [= <-]. destruct (IH rest' eq_refl) as [Hkeys Htagged].
    split; [by rewrite !fmap_cons, Hkeys|]. intros Htag Hall.
    apply Forall_cons in Hall as [Hl Hrest]. constructor; [done|]. by apply Htagged.
Qed.

Lemma tag_and_append_Ok (sector : string) (articles : list Article)
    (all_articles all' : list (string * list Article)) :
  tag_and_append sector articles all_articles = Ok all' →
  all'.*1 = all_articles.*1 ∧ (tagged all_articles → tagged all').
Proof.
  revert all_articles. induction articles as [|a rest IH]; intros all_articles; simpl.
  - by intros [= <-].
  - destruct (append_to sector (set_sector sector a) all_articles) as [mid|e]
      eqn:Hmid; simpl; [|done].
    intros Hrest. apply append_to_Ok in Hmid as [Hkeys Htag].
    apply IH in Hrest as [Hkeys' Htag'].
    split; [congruence|]. intros Hall. by apply Htag', Htag.
Qed.

Lemma tag_and_append_known (sector : string) (articles : list Article)
    (all_articles : list (string * list Article)) :
  sector ∈ all_articles.*1 →
  ∃ all', tag_and_append sector articles all_articles = Ok all'.
Proof.
  revert all_articles. induction articles as [|a rest IH]; intros all_articles Hin;
    simpl; [by eexists|].
  destruct (append_to_known sector (set_sector sector a) all_articles Hin)
    as [mid Hmid].
  rewrite Hmid. simpl. apply IH.
  apply append_to_Ok in Hmid as [-> _]. done.
Qed.

Lemma tag_and_append_unknown (sector : string) (articles : list Article)
    (all_articles : list (string * list Article)) :
  sector ∉ all_articles.*1 → articles ≠ [] →
  tag_and_append sector articles all_articles = Raise (KeyError sector).
Proof.
  intros Hnotin Hne. destruct articles as [|a rest]; [done|]. simpl.
  by rewrite append_to_unknown.
Qed.

Lemma fetch_each_Ok (fetch : string → list Article) (sector : string)
    (sources : list string) (all_articles all' : list (string * list Article)) :
  fetch_each fetch sector sources all_articles = Ok all' →
  all'.*1 = all_articles.*1 ∧ (tagged all_articles → tagged all').
Proof.
  revert all_articles. induction sources as [|src rest IH]; intros all_articles; simpl.
  - by intros [= <-].
  - destruct (tag_and_append sector (fetch src) all_articles) as [mid|e] eqn:Hmid;
      simpl; [|done].
    intros Hrest. apply tag_and_append_Ok in Hmid as [Hkeys Htag].
    apply IH in Hrest as [Hkeys' Htag'].
    split; [congruence|]. intros Hall. by apply Htag', Htag.
Qed.

Lemma fetch_each_known (fetch : string → list Article) (sector : string)
    (sources : list string) (all_articles : list (string * list Article)) :
  sector ∈ all_articles.*1 →
  ∃ all', fetch_each fetch sector sources all_articles = Ok all'.
Proof.
  revert all_articles. induction sources as [|src rest IH]; intros all_articles Hin;
    simpl; [by eexists|].
  destruct (tag_and_append_known sector (fetch src) all_articles Hin) as [mid Hmid].
  rewrite Hmid. simpl. apply IH.
  apply tag_and_append_Ok in Hmid as [-> _]. done.
Qed.

Lemma fetch_each_unknown (fetch : string → list Article) (sector : string)
    (sources : list string) (all_articles : list (string * list Article)) :
  sector ∉ all_articles.*1 → Exists (λ src, fetch src ≠ []) sources →
  fetch_each fetch sector sources all_articles = Raise (KeyError sector).
Proof.
  intros Hnotin Hex. revert all_articles Hnotin.
  induction sources as [|src rest IH]; intros all_articles Hnotin;
    [by apply Exists_nil in Hex|]. simpl.
  destruct (fetch src) as [|a l] eqn:Hsrc.
  - simpl. apply IH; [|done].
    apply Exists_cons in Hex as [Hhere|Hlater]; [by rewrite Hsrc in Hhere | done].
  - by rewrite tag_and_append_unknown.
Qed.

Section WithNetwork.

Variable fetch_from_newsapi : string → list Article.
Variable general_articles : list Article.
Variable fetch_from_rss : string → list Article.

Local Abbreviation fetch_sector_queries :=
  (fetch_sector_queries fetch_from_newsapi).
Local Abbreviation fetch_sector_feeds := (fetch_sector_feeds fetch_from_rss).
Local Abbreviation fetch_all_sectors :=
  (fetch_all_sectors fetch_from_newsapi general_articles fetch_from_rss).

Lemma fetch_sector_queries_Ok (sectors : list (string * option (list string)))
    (all_articles all' : list (string * list Article)) :
  fetch_sector_queries sectors all_articles = Ok all' →
  all'.*1 = all_articles.*1 ∧ (tagged all_articles → tagged all').
Proof.
  revert all_articles. induction sectors as [|[sector queries] rest IH];
    intros all_articles; simpl.
  - by intros [= <-].
  - destruct (fetch_each _ sector _ all_articles) as [mid|e] eqn:Hmid; simpl; [|done].
    intros Hrest. apply fetch_each_Ok in Hmid as [Hkeys Htag].
    apply IH in Hrest as [Hkeys' Htag'].
    split; [congruence|]. intros Hall. by apply Htag', Htag.
Qed.

Lemma fetch_sector_queries_known (sectors : list (string * option (list string)))
    (all_articles : list (string * list Article)) :
  Forall (λ c, c.1 ∈ all_articles.*1) sectors →
  ∃ all', fetch_sector_queries sectors all_articles = Ok all'.
Proof.
  intros Hknown. revert all_articles Hknown.
  induction sectors as [|[sector queries] rest IH]; intros all_articles Hknown;
    simpl; [by eexists|].
  apply Forall_cons in Hknown as [Hsector Hrest]. simpl in Hsector.
  destruct (fetch_each_known fetch_from_newsapi sector (take 2 (default [] queries))
              all_articles Hsector) as [mid Hmid].
  rewrite Hmid. simpl. apply IH.
  apply fetch_each_Ok in Hmid as [-> _]. done.
Qed.

Lemma fetch_sector_feeds_Ok (rss_feeds : list (string * list string))
    (all_articles all' : list (string * list Article)) :
  fetch_sector_feeds rss_feeds all_articles = Ok all' →
  all'.*1 = all_articles.*1 ∧ (tagged all_articles → tagged all').
Proof.
  revert all_articles. induction rss_feeds as [|[sector feeds] rest IH];
    intros all_articles; simpl.
  - by intros [= <-].
  - destruct (fetch_each _ sector _ all_articles) as [mid|e] eqn:Hmid; simpl; [|done].
    intros Hrest. apply fetch_each_Ok in Hmid as [Hkeys Htag].
    apply IH in Hrest as [Hkeys' Htag'].
    split; [congruence|]. intros Hall. by apply Htag', Htag.
Qed.

Lemma fetch_sector_feeds_known (rss_feeds : list (string * list string))
    (all_articles : list (string * list Article)) :
  Forall (λ c, c.1 ∈ all_articles.*1) rss_feeds →
  ∃ all', fetch_sector_feeds rss_feeds all_articles = Ok all'.
Proof.
  intros Hknown. revert all_articles Hknown.
  induction rss_feeds as [|[sector feeds] rest IH]; intros all_articles Hknown;
    simpl; [by eexists|].
  apply Forall_cons in Hknown as [Hsector Hrest]. simpl in Hsector.
  destruct (fetch_each_known fetch_from_rss sector feeds all_articles Hsector)
    as [mid Hmid].
  rewrite Hmid. simpl. apply IH.
  apply fetch_each_Ok in Hmid as [-> _]. done.
Qed.

(** X10.  When [fetch_all_sectors] returns, its result has exactly the keys
    farming, tech, politics, hospitality and general, in that order; under
    each key the urls are non-empty and pairwise distinct, and every article
    carries that key as its sector tag.  It does return whenever every
    configured sector is one of the five. *)
Theorem fetch_all_sectors_result (sectors : list (string * option (list string)))
    (use_rss : bool) :
  (∀ all_articles,
     fetch_all_sectors sectors use_rss = Ok all_articles →
     all_articles.*1 = sector_keys
     ∧ ∀ k articles, (k, articles) ∈ all_articles →
         NoDup (url_key <$> articles)
         ∧ ∀ a, a ∈ articles → url_key a ≠ "" ∧ sector a = Str k)
  ∧ (Forall (λ c, c.1 ∈ sector_keys) sectors →
     ∃ all_articles, fetch_all_sectors sectors use_rss = Ok all_articles).
Proof.
  unfold Ingest.fetch_all_sectors. split.
  - intros result.
    destruct (fetch_sector_queries sectors empty_sectors) as [all1|e] eqn:H1;
      cbn [bind]; [|done].
    destruct (tag_and_append "general" general_articles all1) as [all2|e] eqn:H2;
      cbn [bind]; [|done].
    destruct (if use_rss then _ else _) as [all3|e] eqn:H3; cbn [bind]; [|done].
    intros [= <-].
    apply fetch_sector_queries_Ok in H1 as [Hk1 Ht1].
    apply tag_and_append_Ok in H2 as [Hk2 Ht2].
    assert (all3.*1 = all2.*1 ∧ (tagged all2 → tagged all3)) as [Hk3 Ht3].
    { destruct use_rss; [by apply fetch_sector_feeds_Ok in H3|].
      by injection H3 as <-. }
    assert (tagged all3) as Htagged.
    { apply Ht3, Ht2, Ht1. repeat constructor. }
    split.
    + rewrite <- list_fmap_compose.
      transitivity (all3.*1); [by apply list_fmap_ext|].
      by rewrite Hk3, Hk2, Hk1.
    + intros k articles Hin.
      apply list_elem_of_fmap in Hin as ([k' l] & [= -> ->] & Hin). simpl.
      rewrite dedupe_unfold. split; [apply dedupe_from_NoDup|].
      intros a Ha. split; [by apply dedupe_from_unseen in Ha as [Hne _]|].
      unfold tagged in Htagged. rewrite Forall_forall in Htagged.
      specialize (Htagged _ Hin). simpl in Htagged.
      rewrite Forall_forall in Htagged. apply Htagged.
      eapply elem_of_sublist; [exact Ha | apply dedupe_from_sublist].
  - intros Hknown.
    destruct (fetch_sector_queries_known sectors empty_sectors Hknown)
      as [all1 H1].
    rewrite H1. cbn [bind].
    pose proof H1 as [Hk1 _]%fetch_sector_queries_Ok.
    destruct (tag_and_append_known "general" general_articles all1) as [all2 H2].
    { rewrite Hk1. simpl. set_solver. }
    rewrite H2. cbn [bind].
    pose proof H2 as [Hk2 _]%tag_and_append_Ok.
    destruct use_rss; [|by eexists].
    destruct (fetch_sector_feeds_known _get_rss_feeds all2) as [all3 H3].
    { rewrite Hk2, Hk1. simpl. repeat constructor; simpl; set_solver. }
    rewrite H3. by eexists.
Qed.

(** X11.  A configured sector outside the five keys makes the whole fetch
    fail: if the sectors configured before it are among the five and one of
    its first two search queries returns an article, [fetch_all_sectors]
    raises a [KeyError] for it, whatever was fetched before. *)
Theorem fetch_all_sectors_unknown_sector
    (before : list (string * option (list string))) (sector : string)
    (queries : option (list string))
    (after : list (string * option (list string))) (use_rss : bool) :
  Forall (λ c, c.1 ∈ sector_keys) before →
  sector ∉ sector_keys →
  Exists (λ query, fetch_from_newsapi query ≠ []) (take 2 (default [] queries)) →
  fetch_all_sectors (before ++ (sector, queries) :: after) use_rss
  = Raise (KeyError sector).
Proof.
  intros Hbefore Hunknown Hhit. unfold Ingest.fetch_all_sectors.
  assert (∀ all_articles,
            all_articles.*1 = sector_keys →
            fetch_sector_queries (before ++ (sector, queries) :: after) all_articles
            = Raise (KeyError sector)) as Hraise.
  { clear -Hbefore Hunknown Hhit.
    induction Hbefore as [|[s qs] before Hs _ IH]; intros all_articles Hkeys; simpl.
    - rewrite fetch_each_unknown; [done | by rewrite Hkeys | done].
    - simpl in Hs.
      destruct (fetch_each_known fetch_from_newsapi s (take 2 (default [] qs))
                  all_articles) as [mid Hmid]; [by rewrite Hkeys|].
      rewrite Hmid. simpl. apply IH.
      apply fetch_each_Ok in Hmid as [-> _]. done. }
  by rewrite Hraise.
Qed.

End WithNetwork.

(** X12.  Every article [fetch_by_category] returns comes from one of the
    first three search queries of the category (from the query "Israel
    <category>" when none is configured) and carries the category as its
    sector tag, whatever tag it had before. *)
Theorem fetch_by_category_tagged (fetch_from_newsapi : string → list Article)
    (search_queries : string → option (list string)) (category : string) :
  ∀ a, a ∈ fetch_by_category fetch_from_newsapi search_queries category →
    sector a = Str category
    ∧ ∃ query fetched,
        query ∈ take 3 (default ["Israel " +:+ category] (search_queries category))
        ∧ fetched ∈ fetch_from_newsapi query
        ∧ a = set_sector category fetched.
Proof.
  intros a Ha. unfold fetch_by_category in Ha. rewrite dedupe_unfold in Ha.
  eapply elem_of_sublist in Ha; [|apply dedupe_from_sublist].
  apply list_elem_of_In, in_flat_map in Ha as (query & Hquery & Ha).
  apply list_elem_of_In in Hquery, Ha.
  apply list_elem_of_fmap in Ha as (fetched & -> & Hfetched).
  split; [done|]. by exists query, fetched.
Qed.

End IngestFacts.

(** ** The standard format *)

Section FormatFacts.

Import Format.

Lemma py_or_fallback (a : value) (article : gmap string value) (k : string) :
  absent_or_str article k →
  py_or (py_or a (get_default article k (VStr ""))) (VStr "")
  = py_or a (get_default article k (VStr "")).
Proof.
  intros Hk. unfold py_or at 2 3. destruct (truthy a) eqn:Ha.
  - unfold py_or. by rewrite Ha.
  - unfold py_or, get_default.
    destruct Hk as [-> | [s ->]]; simpl; [done|]. by destruct s.
Qed.

Lemma format_article_lookup (article : gmap string value) :
  let formatted := format_article article in
  formatted !! "external_id"
    = Some (get_default article "external_id" (get_default article "url" (VStr "")))
  ∧ formatted !! "title" = Some (get_default article "title" (VStr ""))
  ∧ formatted !! "description"
    = Some (py_or (get_default article "description" (VStr ""))
                  (get_default article "summary" (VStr "")))
  ∧ formatted !! "content" = Some (get_default article "content" (VStr ""))
  ∧ formatted !! "url" = Some (get_default article "url" (VStr ""))
  ∧ formatted !! "image_url"
    = Some (py_or (get_default article "image_url" (VStr ""))
                  (get_default article "urlToImage" (VStr "")))
  ∧ formatted !! "published_at"
    = Some (py_or (get_default article "published_at" (VStr ""))
                  (get_default article "publishedAt" (VStr "")))
  ∧ formatted !! "source" = Some (source_of article)
  ∧ formatted !! "category"
    = Some (get_default article "sector"
              (get_default article "category" (VStr "general")))
  ∧ formatted !! "summary" = None
  ∧ formatted !! "urlToImage" = None
  ∧ formatted !! "publishedAt" = None
  ∧ formatted !! "sector" = None.
Proof. unfold format_article. split_and!; by simplify_map_eq. Qed.

Lemma get_default_Some (d : gmap string value) (k : string) (v dflt : value) :
  d !! k = Some v → get_default d k dflt = v.
Proof. unfold get_default. by intros ->. Qed.

Lemma get_default_None (d : gmap string value) (k : string) (dflt : value) :
  d !! k = None → get_default d k dflt = dflt.
Proof. unfold get_default. by intros ->. Qed.

(** Under [plain_fallbacks] the formatted source is not an object. *)
Lemma source_of_format (article : gmap string value) :
  plain_fallbacks article →
  source_of (format_article article) = source_of article.
Proof.
  intros (_ & _ & _ & Hname).
  destruct (format_article_lookup article)
    as (_ & _ & _ & _ & _ & _ & _ & Hsrc & _).
  unfold source_of at 1. rewrite Hsrc.
  destruct (source_of article) as [| |d] eqn:Hd;
    [by apply get_default_Some | by apply get_default_Some |].
  exfalso. unfold source_of, get_default in Hd.
  destruct (article !! "source") as [[| |source]|] eqn:Hsource; simpl in Hd;
    try done.
  destruct (source !! "name") as [name|] eqn:Hsourcename; simpl in Hd; [|done].
  subst name. by destruct (Hname source d).
Qed.

Lemma format_article_idemp (article : gmap string value) :
  plain_fallbacks article →
  format_article (format_article article) = format_article article.
Proof.
  intros Hplain. pose proof Hplain as (Hsummary & Himage & Hdate & _).
  destruct (format_article_lookup article)
    as (Hid & Htitle & Hdesc & Hcontent & Hurl & Himg & Hpub & Hsrc & Hcat
        & Hnosum & Hnoimg & Hnopub & Hnosector).
  unfold format_article at 1. rewrite (source_of_format article Hplain).
  rewrite (get_default_Some _ _ _ _ Hid).
  rewrite (get_default_Some _ _ _ (VStr "") Htitle).
  rewrite (get_default_Some _ _ _ (VStr "") Hdesc).
  rewrite (get_default_Some _ _ _ (VStr "") Hcontent).
  rewrite (get_default_Some _ _ _ (VStr "") Hurl).
  rewrite (get_default_Some _ _ _ (VStr "") Himg).
  rewrite (get_default_Some _ _ _ (VStr "") Hpub).
  rewrite (get_default_None _ _ (VStr "") Hnosum).
  rewrite (get_default_None _ _ (VStr "") Hnoimg).
  rewrite (get_default_None _ _ (VStr "") Hnopub).
  rewrite (get_default_None _ _ _ Hnosector).
  rewrite (get_default_Some _ _ _ (VStr "general") Hcat).
  rewrite (py_or_fallback _ article "summary" Hsummary),
    (py_or_fallback _ article "urlToImage" Himage),
    (py_or_fallback _ article "publishedAt" Hdate).
  reflexivity.
Qed.

(** X13.  [to_json_format] returns one dictionary per article, each with
    exactly the nine keys of the standard format.  Formatting again what it
    returned changes nothing, provided the stand-in keys ([summary],
    [urlToImage], [publishedAt]) of each article hold strings when present
    and the name of a source object is not itself an object.  The proviso is
    needed: with an empty description and a [summary] of [None], the first
    pass gives the description [None] and the second gives ['']. *)
Theorem to_json_format_idempotent (articles : list (gmap string value)) :
  length (to_json_format articles) = length articles
  ∧ (∀ formatted, formatted ∈ to_json_format articles →
       dom formatted
       = ({[ "external_id"; "title"; "description"; "content"; "url";
             "image_url"; "published_at"; "source"; "category" ]} : gset string))
  ∧ (Forall plain_fallbacks articles →
     to_json_format (to_json_format articles) = to_json_format articles)
  ∧ (let article := <["description" := VStr ""]> (<["summary" := VNone]> ∅) in
     format_article article !! "description" = Some VNone
     ∧ format_article (format_article article) !! "description" = Some (VStr "")).
Proof.
  unfold to_json_format. split; [|split; [|split]].
  - apply length_fmap.
  - intros formatted (article & -> & _)%list_elem_of_fmap.
    unfold format_article. rewrite !dom_insert_L, dom_empty_L. set_solver.
  - intros Hplain. rewrite <- list_fmap_compose. apply Forall_fmap_ext_1.
    eapply Forall_impl; [exact Hplain|]. intros article Harticle. simpl.
    by apply format_article_idemp.
  - vm_compute. by split.
Qed.

End FormatFacts.

(** ** The pipeline: ingestion and accounting *)

Section DictFacts.

Import Pipeline.

Context {V : Type}.

Lemma dict_set_fresh (k : string) (v : V) (d : dict V) :
  k ∉ d.*1 → dict_set k v d = d ++ [(k, v)].
Proof.
  induction d as [|[k' v'] rest IH]; simpl; [done|].
  intros [Hne Hrest]%not_elem_of_cons.
  rewrite bool_decide_eq_false_2 by done. by rewrite IH.
Qed.

Lemma dict_set_keys (k : string) (v : V) (d : dict V) :
  (dict_set k v d).*1 = if decide (k ∈ d.*1) then d.*1 else d.*1 ++ [k].
Proof.
  induction d as [|[k' v'] rest IH]; simpl; [done|].
  destruct (bool_decide_reflect (k' = k)) as [->|Hne].
  - rewrite decide_True by left. done.
  - rewrite fmap_cons, IH. simpl.
    destruct (decide (k ∈ rest.*1)) as [Hin|Hnotin].
    + rewrite decide_True by (by right). done.
    + rewrite decide_False; [done|].
      intros [Heq|Hin]%elem_of_cons; [by destruct Hne | done].
Qed.

Lemma dict_set_NoDup (k : string) (v : V) (d : dict V) :
  NoDup d.*1 → NoDup (dict_set k v d).*1.
Proof.
  intros Hnodup. rewrite dict_set_keys.
  destruct (decide (k ∈ d.*1)); [done|].
  apply NoDup_app. split_and!; [done | | apply NoDup_singleton].
  intros x Hx ->%list_elem_of_singleton. done.
Qed.

Lemma dict_set_elem_of (k : string) (v : V) (d : dict V) (c : string) (x : V) :
  NoDup d.*1 →
  (c, x) ∈ dict_set k v d ↔ (c = k ∧ x = v) ∨ (c ≠ k ∧ (c, x) ∈ d).
Proof.
  induction d as [|[k' v'] rest IH]; simpl.
  - intros _. rewrite list_elem_of_singleton, elem_of_nil. naive_solver.
  - intros [Hk' Hrest]%NoDup_cons.
    destruct (bool_decide_reflect (k' = k)) as [->|Hne].
    + rewrite !elem_of_cons. split.
      * intros [[= -> ->] | Hin]; [by left|]. right. split; [|by right].
        intros ->. apply Hk'. by apply (list_elem_of_fmap_2 fst _ (k, x)).
      * intros [[-> ->] | [Hc [[= -> ->] | Hin]]]; [by left | done | by right].
    + rewrite !elem_of_cons, IH by done. naive_solver.
Qed.

Lemma dict_alter_split (f : V → V) (k : string) (v : V) (before after : dict V) :
  k ∉ before.*1 →
  dict_alter f k (before ++ (k, v) :: after) = before ++ (k, f v) :: after.
Proof.
  induction before as [|[k' v'] before IH]; simpl.
  - intros _. by rewrite bool_decide_eq_true_2.
  - intros [Hne Hrest]%not_elem_of_cons.
    rewrite bool_decide_eq_false_2 by done. by rewrite IH.
Qed.

End DictFacts.

Section IngestorFacts.

Import Pipeline Accounting.

Context {A : Type}.
Variable category_of : A → string.
Variable self : Components (A := A).

Lemma fold_ingest_step (fetch_by_category : string → result (list A))
    (categories : list string) (all_articles : dict (list A)) (lg : log) :
  NoDup all_articles.*1 →
  (∀ c l, (c, l) ∈ all_articles → l = fetched fetch_by_category c) →
  let '(all', lg') :=
    fold_left (ingest_step fetch_by_category) categories (all_articles, lg) in
  NoDup all'.*1
  ∧ (∀ c, c ∈ all'.*1 ↔ c ∈ all_articles.*1 ∨ c ∈ categories)
  ∧ (∀ c l, (c, l) ∈ all' → l = fetched fetch_by_category c)
  ∧ lg' = lg ++ ((λ c, (ERROR, "Error fetching " +:+ c))
                   <$> filter (fetch_raises fetch_by_category) categories).
Proof.
  revert all_articles lg.
  induction categories as [|category rest IH]; intros all_articles lg Hnodup Hall.
  - simpl. split_and!; [done | | done | by rewrite app_nil_r].
    intros c. rewrite elem_of_nil. naive_solver.
  - cbn [fold_left]. unfold ingest_step at 2.
    set (step := match fetch_by_category category with
                 | Ok articles => (dict_set category articles all_articles, lg)
                 | Raise _ =>
                     (dict_set category [] all_articles,
                      lg ++ [(ERROR, "Error fetching " +:+ category)])
                 end).
    assert (step = (dict_set category (fetched fetch_by_category category)
                      all_articles,
                    lg ++ ((λ c, (ERROR, "Error fetching " +:+ c))
                             <$> filter (fetch_raises fetch_by_category) [category])))
      as ->.
    { unfold step, fetched. rewrite filter_cons, filter_nil.
      destruct (fetch_by_category category) as [l|e] eqn:Hfetch.
      - rewrite decide_False; [by rewrite app_nil_r|].
        intros [e He]. congruence.
      - rewrite decide_True; [done|]. unfold fetch_raises. by eexists. }
    specialize (IH (dict_set category (fetched fetch_by_category category) all_articles)
                  (lg ++ ((λ c, (ERROR, "Error fetching " +:+ c))
                            <$> filter (fetch_raises fetch_by_category) [category]))).
    destruct (fold_left _ rest _) as [all' lg'].
    destruct IH as (Hnodup' & Hkeys & Hvals & Hlog).
    + by apply dict_set_NoDup.
    + intros c l Hin. apply dict_set_elem_of in Hin as [[-> ->] | [_ Hin]]; eauto.
    + split_and!; [done | | done |].
      * intros c. rewrite Hkeys, dict_set_keys, elem_of_cons.
        destruct (decide (category ∈ all_articles.*1)).
        -- split; [naive_solver|]. intros [?|[->|?]]; eauto.
        -- rewrite elem_of_app, list_elem_of_singleton. naive_solver.
      * rewrite Hlog, <- app_assoc, <- fmap_app. f_equal. f_equal.
        by rewrite <- filter_app.
Qed.

Lemma run_ingestor_NoDup (categories : list string) :
  NoDup (run_ingestor self categories).1.*1.
Proof.
  unfold run_ingestor. destruct (ingestor self) as [fetch_by_category|].
  - pose proof (fold_ingest_step fetch_by_category (or_default categories) [] [])
      as Hfold.
    destruct (fold_left _ _ _) as [all' lg'].
    destruct Hfold as (Hnodup & _); [constructor | by intros c l ?%elem_of_nil |].
    done.
  - constructor.
Qed.

(** X14.  With an ingestor, [run_ingestor] returns one entry per requested
    category (all five when none is requested), without repetition: the
    articles fetched for it, or the empty list when its fetch raises.  A
    failing category costs one logged error and does not disturb the
    others. *)
Theorem run_ingestor_per_category
    (fetch_by_category : string → result (list A)) (categories : list string) :
  ingestor self = Some fetch_by_category →
  let '(all_articles, lg) := run_ingestor self categories in
  NoDup all_articles.*1
  ∧ (∀ c, c ∈ all_articles.*1 ↔ c ∈ or_default categories)
  ∧ (∀ c articles, (c, articles) ∈ all_articles →
       articles = match fetch_by_category c with
                  | Ok fetched => fetched
                  | Raise _ => []
                  end)
  ∧ lg = (λ c, (ERROR, "Error fetching " +:+ c))
           <$> filter (fetch_raises fetch_by_category) (or_default categories).
Proof.
  intros Hingestor. unfold run_ingestor. rewrite Hingestor.
  pose proof (fold_ingest_step fetch_by_category (or_default categories) [] [])
    as Hfold.
  destruct (fold_left _ _ _) as [all' lg'].
  destruct Hfold as (Hnodup & Hkeys & Hvals & Hlog).
  - constructor.
  - by intros c l ?%elem_of_nil.
  - split_and!; [done | | done | done].
    intros c. rewrite Hkeys. simpl. rewrite elem_of_nil. naive_solver.
Qed.

End IngestorFacts.

Section AccountingFacts.

Import Pipeline Accounting.

Context {A : Type}.
Variable category_of : A → string.
Variable self : Components (A := A).

Local Abbreviation run_full_pipeline := (run_full_pipeline category_of self).

Lemma fold_count_raw (items : dict (list A)) (cats : dict CategoryCounts)
    (total : nat) :
  NoDup (cats.*1 ++ items.*1) →
  fold_left count_raw items (cats, total)
  = (cats ++ (raw_counts <$> items),
     (total + sum_list ((λ item, length item.2) <$> items))%nat).
Proof.
  revert cats total. induction items as [|[c l] rest IH]; intros cats total Hnodup.
  - simpl. by rewrite app_nil_r, Nat.add_0_r.
  - cbn [fold_left]. unfold count_raw at 2.
    rewrite fmap_cons in Hnodup. simpl in Hnodup.
    rewrite dict_set_fresh.
    + rewrite IH.
      * rewrite <- app_assoc. csimpl. f_equal. lia.
      * rewrite fmap_app. simpl. by rewrite <- app_assoc.
    + apply NoDup_app in Hnodup as (_ & Hdisj & _).
      intros Hin. apply (Hdisj c Hin). left.
Qed.

Lemma process_category_step (all_processed : list A) (cats : dict CategoryCounts)
    (lg : log) (c : string) (l : list A) :
  process_category self (all_processed, cats, lg) (c, l)
  = match l with
    | [] => (all_processed, cats, lg)
    | _ =>
        (all_processed ++ (run_processor self l).1,
         dict_alter (λ counts,
                       {| raw_count := raw_count counts;
                          processed_count :=
                            Some (length (run_processor self l).1) |}) c cats,
         lg ++ (run_processor self l).2)
    end.
Proof.
  unfold process_category. destruct l as [|a l]; [done|].
  by destruct (run_processor self (a :: l)).
Qed.

Lemma fold_process_category (items : dict (list A)) (all_processed : list A)
    (done_cats : dict CategoryCounts) (lg : log) :
  NoDup (done_cats.*1 ++ items.*1) →
  ∃ lg',
    fold_left (process_category self) items
      (all_processed, done_cats ++ (raw_counts <$> items), lg)
    = (all_processed ++ flat_map (processed_of self) items,
       done_cats ++ (final_counts self <$> items), lg').
Proof.
  revert all_processed done_cats lg.
  induction items as [|[c l] rest IH]; intros all_processed done_cats lg Hnodup.
  - exists lg. simpl. by rewrite !app_nil_r.
  - cbn [fold_left]. rewrite fmap_cons in Hnodup. simpl in Hnodup.
    assert (c ∉ done_cats.*1) as Hfresh.
    { apply NoDup_app in Hnodup as (_ & Hdisj & _).
      intros Hin. apply (Hdisj c Hin). left. }
    assert (NoDup ((done_cats ++ [final_counts self (c, l)]).*1 ++ rest.*1))
      as Hnodup'.
    { rewrite fmap_app. simpl. by rewrite <- app_assoc. }
    rewrite process_category_step, !fmap_cons.
    assert (∃ acc' lg1,
              match l with
              | [] => (all_processed,
                       done_cats ++ raw_counts (c, l) :: (raw_counts <$> rest), lg)
              | _ =>
                  (all_processed ++ (run_processor self l).1,
                   dict_alter
                     (λ counts,
                        {| raw_count := raw_count counts;
                           processed_count :=
                             Some (length (run_processor self l).1) |}) c
                     (done_cats ++ raw_counts (c, l) :: (raw_counts <$> rest)),
                   lg ++ (run_processor self l).2)
              end
              = (acc', (done_cats ++ [final_counts self (c, l)])
                       ++ (raw_counts <$> rest), lg1)
              ∧ acc' = all_processed ++ processed_of self (c, l))
      as (acc' & lg1 & -> & ->).
    { destruct l as [|a l].
      - exists all_processed, lg. rewrite <- app_assoc.
        split; [done|]. unfold processed_of. simpl. by rewrite app_nil_r.
      - eexists _, _. unfold raw_counts at 1. cbn [fst snd].
        rewrite dict_alter_split by done. rewrite <- app_assoc.
        split; reflexivity. }
    destruct (IH (all_processed ++ processed_of self (c, l))
                (done_cats ++ [final_counts self (c, l)]) lg1 Hnodup')
      as [lg' Hfold].
    exists lg'. rewrite Hfold. cbn [flat_map].
    by rewrite <- !app_assoc.
Qed.

Lemma sum_processed_counts (items : dict (list A)) :
  sum_list ((λ e, default 0%nat (processed_count e.2)) <$> (final_counts self <$> items))
  = length (flat_map (processed_of self) items).
Proof.
  induction items as [|[c l] rest IH]; [done|].
  rewrite !fmap_cons. cbn [sum_list flat_map]. rewrite length_app, IH. f_equal.
  unfold final_counts, processed_of. simpl. by destruct l.
Qed.

Lemma sum_raw_counts (items : dict (list A)) :
  sum_list ((λ e, raw_count e.2) <$> (final_counts self <$> items))
  = sum_list ((λ item, length item.2) <$> items).
Proof.
  induction items as [|[c l] rest IH]; [done|].
  rewrite !fmap_cons. cbn [sum_list]. by rewrite IH.
Qed.

Lemma length_processed_raw (items : dict (list A)) :
  processor self = None →
  length (flat_map (processed_of self) items)
  = sum_list ((λ item, length item.2) <$> items).
Proof.
  intros Hnone. induction items as [|[c l] rest IH]; [done|].
  rewrite fmap_cons. cbn [sum_list flat_map]. rewrite length_app, IH. f_equal.
  unfold processed_of, run_processor. rewrite Hnone. simpl. by destruct l.
Qed.

(** The results of a run in terms of what the ingestor returned. *)
Lemma run_full_pipeline_results (t_start t_end : Z) (categories : list string)
    (save : bool) :
  let raw_articles := (run_ingestor self (or_default categories)).1 in
  let results := (run_full_pipeline t_start t_end categories save).1 in
  Pipeline.categories results = final_counts self <$> raw_articles
  ∧ total_articles results = sum_list ((λ item, length item.2) <$> raw_articles)
  ∧ processed_articles results
    = length (flat_map (processed_of self) raw_articles)
  ∧ ∃ final_articles,
      length final_articles
      = length (run_asset_automator self
                  (flat_map (processed_of self) raw_articles)).1
      ∧ saved_articles results
        = if save then (save_to_database category_of self final_articles).1
          else 0%nat.
Proof.
  intros raw_articles results. unfold results, Pipeline.run_full_pipeline.
  pose proof (run_ingestor_NoDup self (or_default categories)) as Hnodup.
  fold raw_articles in Hnodup.
  destruct (run_ingestor self (or_default categories)) as [raw lg1] eqn:Hraw.
  simpl in raw_articles. subst raw_articles.
  rewrite (fold_count_raw raw [] 0) by done. simpl app.
  destruct (fold_process_category raw [] [] [] Hnodup) as [lg2 Hfold].
  simpl app in Hfold. rewrite Hfold.
  destruct (run_asset_automator self (flat_map (processed_of self) raw))
    as [final_articles lg3] eqn:Hfinal.
  destruct save.
  - destruct (save_to_database category_of self final_articles)
      as [saved lg4] eqn:Hsave.
    simpl. split_and!; [done | done | done |].
    exists final_articles. by rewrite Hsave.
  - simpl. split_and!; [done | done | done |]. by exists final_articles.
Qed.

(** X15.  The category table of a run adds up to its totals: the categories
    are listed once each, [total_articles] is the sum of their raw counts and
    [processed_articles] the sum of their processed counts, a category
    without articles having no processed count.  When the processor is
    missing the raw articles pass through, and [processed_articles] equals
    [total_articles]. *)
Theorem run_full_pipeline_accounting (t_start t_end : Z) (categories : list string)
    (save : bool) :
  let results := (run_full_pipeline t_start t_end categories save).1 in
  NoDup (Pipeline.categories results).*1
  ∧ total_articles results
    = sum_list ((λ e, raw_count e.2) <$> Pipeline.categories results)
  ∧ processed_articles results
    = sum_list ((λ e, default 0%nat (processed_count e.2))
                  <$> Pipeline.categories results)
  ∧ (∀ c counts, (c, counts) ∈ Pipeline.categories results →
       processed_count counts = None ↔ raw_count counts = 0%nat)
  ∧ (processor self = None →
     processed_articles results = total_articles results).
Proof.
  intros results.
  destruct (run_full_pipeline_results t_start t_end categories save)
    as (Hcats & Htotal & Hprocessed & _).
  fold results in Hcats, Htotal, Hprocessed.
  rewrite Hcats, Htotal, Hprocessed. split_and!.
  - rewrite <- list_fmap_compose.
    erewrite list_fmap_ext; [apply run_ingestor_NoDup|]. by intros i [c l] _.
  - by rewrite sum_raw_counts.
  - by rewrite sum_processed_counts.
  - intros c counts ([c' l] & [= -> ->] & _)%list_elem_of_fmap.
    simpl. by destruct l.
  - apply length_processed_raw.
Qed.

Lemma fold_save_step_le (d : Database) (articles : list A) (saved : nat) (lg : log) :
  ((fold_left (save_step category_of d) articles (saved, lg)).1
   ≤ saved + length articles)%nat.
Proof.
  revert saved lg. induction articles as [|a rest IH]; intros saved lg;
    cbn [fold_left length]; [simpl; lia|].
  assert (∃ saved' lg', save_step category_of d (saved, lg) a = (saved', lg')
                        ∧ (saved' ≤ S saved)%nat) as (saved' & lg' & -> & Hle).
  { unfold save_step.
    destruct (execute_query d (category_of a)) as [[|category_id rows]|e];
      [by eauto | | by eauto].
    destruct (insert_article d category_id a); by eauto. }
  specialize (IH saved' lg'). lia.
Qed.

(** X16.  A run never reports more saved articles than processed ones,
    provided the asset stage returns as many articles as it is given (as
    [process_article_images] does); and without the save flag nothing is
    saved. *)
Theorem run_full_pipeline_saved_bound (t_start t_end : Z)
    (categories : list string) (save : bool) :
  (∀ process_article_images, uploader self = Some process_article_images →
     ∀ articles, length (process_article_images articles) = length articles) →
  let results := (run_full_pipeline t_start t_end categories save).1 in
  (saved_articles results ≤ processed_articles results)%nat
  ∧ (save = false → saved_articles results = 0%nat).
Proof.
  intros Hlength results.
  destruct (run_full_pipeline_results t_start t_end categories save)
    as (_ & _ & Hprocessed & final_articles & Hfinal & Hsaved).
  fold results in Hprocessed, Hsaved. rewrite Hprocessed, Hsaved.
  split; [|by intros ->].
  destruct save; [|lia].
  assert (length final_articles
          = length (flat_map (processed_of self)
                      (run_ingestor self (or_default categories)).1)) as <-.
  { rewrite Hfinal. unfold run_asset_automator.
    destruct (uploader self) as [upl|] eqn:Hupl; simpl; [|done].
    by apply Hlength. }
  unfold save_to_database. destruct (db self) as [d|]; simpl; [|lia].
  apply (fold_save_step_le d final_articles 0 []).
Qed.

End AccountingFacts.

(** ** Images *)

Section UploaderFacts.

Import Uploader.

Variable fallback_image : string.
Variable _download_image : string → option string.
Variable _optimize_image : string → string.
Variable _get_extension : string → string → string.
Variable _get_image_hash : string → string.
Variable provider_upload : string → string → result string.

Local Abbreviation upload_image :=
  (upload_image fallback_image _download_image _optimize_image _get_extension
     _get_image_hash provider_upload).
Local Abbreviation image_step :=
  (image_step fallback_image _download_image _optimize_image _get_extension
     _get_image_hash provider_upload).
Local Abbreviation process_article_images :=
  (process_article_images fallback_image _download_image _optimize_image
     _get_extension _get_image_hash provider_upload).

Lemma upload_image_hit (st : State) (url hosted : string) (article_id : pyval) :
  url ≠ "" → url_cache st !! url = Some hosted →
  upload_image st url article_id = (st, hosted).
Proof.
  intros Hurl Hhit. unfold Uploader.upload_image.
  destruct url; [done|]. simpl. by rewrite Hhit.
Qed.

(** The three ways a call can end. *)
Lemma upload_image_cases (st : State) (url : string) (article_id : pyval) :
  url ≠ "" →
  (∃ hosted, url_cache st !! url = Some hosted
             ∧ upload_image st url article_id = (st, hosted))
  ∨ (url_cache st !! url = None
     ∧ upload_image st url article_id = (st, fallback_image))
  ∨ (∃ hosted filename,
       url_cache st !! url = None
       ∧ upload_image st url article_id
         = ({| url_cache := <[url := hosted]> (url_cache st);
               stored := stored st ++ [(url, filename)] |}, hosted)).
Proof.
  intros Hurl. unfold Uploader.upload_image.
  destruct url as [|c url]; [done|]. simpl.
  destruct (url_cache st !! String c url) as [hosted|] eqn:Hcache.
  - left. by exists hosted.
  - right. destruct (_download_image (String c url)) as [image_data|]; [|by left].
    destruct (Text.nonempty image_data); simpl; [|by left].
    destruct (provider_upload _ _) as [hosted|e]; [|by left].
    right. by eexists _, _.
Qed.

(** X17.  Uploading an image url either leaves it cached under the url that
    is returned, after which every further upload of that url returns the
    same hosted url without touching the uploader, whatever the article id;
    or it fails, returns the fallback image and caches nothing.  Entries of
    the cache are never changed or removed. *)
Theorem upload_image_cached (st : State) (url : string) (article_id : pyval) :
  url ≠ "" →
  let '(st', hosted) := upload_image st url article_id in
  ((url_cache st' !! url = Some hosted
    ∧ ∀ article_id', upload_image st' url article_id' = (st', hosted))
   ∨ (hosted = fallback_image ∧ st' = st ∧ url_cache st !! url = None))
  ∧ (∀ k v, url_cache st !! k = Some v → url_cache st' !! k = Some v).
Proof.
  intros Hurl.
  destruct (upload_image_cases st url article_id Hurl)
    as [(hosted & Hhit & ->) | [(Hmiss & ->) | (hosted & filename & Hmiss & ->)]].
  - split; [|done]. left. split; [done|].
    intros article_id'. by apply upload_image_hit.
  - split; [|done]. by right.
  - split.
    + left. simpl. split; [by rewrite lookup_insert_eq|].
      intros article_id'. apply upload_image_hit; [done|]. simpl.
      by rewrite lookup_insert_eq.
    + intros k v Hk. simpl. rewrite lookup_insert_ne; [done|]. congruence.
Qed.

Lemma upload_image_stored_once (st : State) (url : string) (article_id : pyval) :
  url ≠ "" → stored_once st → stored_once (upload_image st url article_id).1.
Proof.
  intros Hurl [Hnodup Hcached].
  destruct (upload_image_cases st url article_id Hurl)
    as [(hosted & Hhit & ->) | [(Hmiss & ->) | (hosted & filename & Hmiss & ->)]];
    [done | done |].
  split; simpl.
  - rewrite fmap_app. apply NoDup_app. split_and!; [done | | apply NoDup_singleton].
    intros u Hu ->%list_elem_of_singleton. apply Hcached in Hu as [v Hv].
    simpl in Hv. congruence.
  - intros u. rewrite fmap_app, elem_of_app. simpl.
    rewrite list_elem_of_singleton. intros [Hu | ->].
    + destruct (decide (url = u)) as [->|Hne].
      * rewrite lookup_insert_eq. by eexists.
      * rewrite lookup_insert_ne by done. by apply Hcached.
    + rewrite lookup_insert_eq. by eexists.
Qed.

Lemma truthy_or_empty (v : pyval) : truthy v = true → or_empty v ≠ "".
Proof. destruct v as [[|c s]|]; simpl; done. Qed.

(** What one turn of the loop does, for any accumulator. *)
Lemma image_step_spec (st : State) (done : list (gmap string pyval))
    (article : gmap string pyval) :
  ∃ st' image,
    image_step (st, done) article
    = (st', done ++ [<["image_url" := Some image]> article])
    ∧ (truthy (default (Some "") (article !! "image_url")) = false →
       image = fallback_image ∧ st' = st)
    ∧ (stored_once st → stored_once st').
Proof.
  unfold Uploader.image_step.
  destruct (truthy (default (Some "") (article !! "image_url"))) eqn:Hurl.
  - pose proof (upload_image_stored_once st
                  (or_empty (default (Some "") (article !! "image_url")))
                  (py_or (default None (article !! "id"))
                         (default (Some "") (article !! "external_id")))
                  (truthy_or_empty _ Hurl)) as Honce.
    destruct (upload_image st _ _) as [st' hosted].
    exists st', hosted. split_and!; [done | done | exact Honce].
  - exists st, fallback_image. split_and!; done.
Qed.

Lemma fold_image_step (articles : list (gmap string pyval)) (st : State)
    (done : list (gmap string pyval)) :
  ∃ st' out,
    fold_left image_step articles (st, done) = (st', done ++ out)
    ∧ Forall2 (λ article article',
                 ∃ image, article' = <["image_url" := Some image]> article
                   ∧ (truthy (default (Some "") (article !! "image_url")) = false →
                      image = fallback_image))
              articles out
    ∧ (stored_once st → stored_once st').
Proof.
  revert st done. induction articles as [|article rest IH]; intros st done.
  - exists st, []. rewrite app_nil_r. split_and!; [done | constructor | done].
  - cbn [fold_left].
    destruct (image_step_spec st done article)
      as (st1 & image & -> & Hfallback & Honce1).
    destruct (IH st1 (done ++ [<["image_url" := Some image]> article]))
      as (st' & out & -> & Hout & Honce').
    exists st', (<["image_url" := Some image]> article :: out).
    split_and!.
    + by rewrite <- app_assoc.
    + constructor; [|done]. exists image. split; [done|].
      intros Hno. by apply Hfallback.
    + intros Honce. by apply Honce', Honce1.
Qed.

(** X18.  [process_article_images] returns the articles in the same order
    and number, each changed in its [image_url] only: that key now always
    holds a string, the fallback image for an article that had no image url.
    Over the whole batch no image url is stored twice: an uploader that has
    stored each url at most once, and has every stored url in its cache,
    still does afterwards. *)
Theorem process_article_images_result (st : State)
    (articles : list (gmap string pyval)) :
  let '(st', out) := process_article_images st articles in
  length out = length articles
  ∧ Forall2 (λ article article',
               ∃ image, article' = <["image_url" := Some image]> article
                 ∧ (truthy (default (Some "") (article !! "image_url")) = false →
                    image = fallback_image))
            articles out
  ∧ (stored_once st → stored_once st')
  ∧ stored_once new_uploader.
Proof.
  unfold Uploader.process_article_images.
  destruct (fold_image_step articles st []) as (st' & out & -> & Hout & Honce).
  simpl. split_and!; [| done | done |].
  - symmetry. by eapply Forall2_length.
  - split; [constructor|]. by intros url ?%elem_of_nil.
Qed.

End UploaderFacts.

(** ** Sample runs *)

Lemma fetch_all_sectors_unknown_sector_witness :
  Ingest.fetch_all_sectors sports_only [] (λ _, [])
    ([("tech", Some ["Israel technology"])]
       ++ ("sports", Some ["Israel sports"]) :: [])
    false
  = Raise (Ingest.KeyError "sports").
Proof.
  apply (fetch_all_sectors_unknown_sector sports_only [] (λ _, [])
           [("tech", Some ["Israel technology"])] "sports"
           (Some ["Israel sports"]) [] false).
  - refine (bool_decide_unpack _ _). vm_compute. exact I.
  - refine (bool_decide_unpack _ _). vm_compute. exact I.
  - apply Exists_cons_hd. discriminate.
Defined.

Lemma fetch_by_category_tagged_witness :
  sector (set_sector "tech" (article_with (Str "https://a") Absent "first a"))
  = Str "tech"
  ∧ ∃ query fetched,
      query ∈ take 3 (default ["Israel " +:+ "tech"] (None : option (list string)))
      ∧ fetched ∈ two_hits query
      ∧ set_sector "tech" (article_with (Str "https://a") Absent "first a")
        = set_sector "tech" fetched.
Proof.
  apply (fetch_by_category_tagged two_hits (λ _, None) "tech"
           (set_sector "tech" (article_with (Str "https://a") Absent "first a"))).
  vm_compute. apply list_elem_of_here.
Defined.

Lemma run_ingestor_per_category_witness :
  let '(all_articles, lg) :=
    Pipeline.run_ingestor degraded_pipeline ["tech"; "farming"] in
  NoDup all_articles.*1
  ∧ (∀ c, c ∈ all_articles.*1 ↔ c ∈ Pipeline.or_default ["tech"; "farming"])
  ∧ (∀ c articles, (c, articles) ∈ all_articles →
       articles = match (if bool_decide (c = "tech")
                         then Ok ["Chip maker opens plant"; "Startup raises funds"]
                         else Raise (OtherError "timeout")) with
                  | Ok fetched => fetched
                  | Raise _ => []
                  end)
  ∧ lg = (λ c, (Pipeline.ERROR, "Error fetching " +:+ c))
           <$> filter (Accounting.fetch_raises
                         (λ category,
                            if bool_decide (category = "tech")
                            then Ok ["Chip maker opens plant"; "Startup raises funds"]
                            else Raise (OtherError "timeout")))
                      (Pipeline.or_default ["tech"; "farming"]).
Proof.
  apply (run_ingestor_per_category degraded_pipeline
           (λ category,
              if bool_decide (category = "tech")
              then Ok ["Chip maker opens plant"; "Startup raises funds"]
              else Raise (OtherError "timeout"))
           ["tech"; "farming"]).
  reflexivity.
Defined.

Lemma run_full_pipeline_saved_bound_witness :
  let results :=
    (Pipeline.run_full_pipeline headline_category working_pipeline
       1000 2000 ["tech"] true).1 in
  (Pipeline.saved_articles results ≤ Pipeline.processed_articles results)%nat
  ∧ (true = false → Pipeline.saved_articles results = 0%nat).
Proof.
  apply (run_full_pipeline_saved_bound headline_category working_pipeline
           1000 2000 ["tech"] true).
  intros process_article_images Huploader articles.
  injection Huploader as <-. reflexivity.
Defined.

Lemma upload_image_cached_witness :
  let '(st', hosted) :=
    Uploader.upload_image "https://via.placeholder.com/800x450?text=No+Image"
      toy_download (λ data, data) (λ _ _, ".jpg") toy_digest toy_provider
      Uploader.new_uploader "https://example.com/image.jpg" (Some "article-1") in
  ((Uploader.url_cache st' !! "https://example.com/image.jpg" = Some hosted
    ∧ ∀ article_id',
        Uploader.upload_image "https://via.placeholder.com/800x450?text=No+Image"
          toy_download (λ data, data) (λ _ _, ".jpg") toy_digest toy_provider
          st' "https://example.com/image.jpg" article_id' = (st', hosted))
   ∨ (hosted = "https://via.placeholder.com/800x450?text=No+Image"
      ∧ st' = Uploader.new_uploader
      ∧ Uploader.url_cache Uploader.new_uploader !! "https://example.com/image.jpg"
        = None))
  ∧ (∀ k v, Uploader.url_cache Uploader.new_uploader !! k = Some v →
            Uploader.url_cache st' !! k = Some v).
Proof.
  apply (upload_image_cached "https://via.placeholder.com/800x450?text=No+Image"
           toy_download (λ data, data) (λ _ _, ".jpg") toy_digest toy_provider
           Uploader.new_uploader "https://example.com/image.jpg"
           (Some "article-1")).
  discriminate.
Defined.

(** ** Processing without the language model *)

Section EnrichmentFacts.

Import Processor Routing.

Variable sha256_hexdigest : string -> string.
Variable json_loads : string -> parsed.

(** X19.  When the call to the language model fails (it raises, or answers
    with JSON that is not an object), the article is processed all the same,
    with an empty summary, sentiment 'neutral' and importance 'medium'; its
    id, category and other fields are not affected. *)
Theorem process_article_without_enrichment (env : Env) (a : Article) :
  newsapi_shaped a →
  enrichment_fails json_loads env
    (summary_text (get_or "" (title a)) (get_or "" (description a))
       (get_or "" (content a))) →
  ∃ p, process_article sha256_hexdigest json_loads env a = Ok p
    ∧ p_summary p = [] ∧ p_sentiment p = "neutral" ∧ p_importance p = "medium"
    ∧ p_category p
      = categorize_article (get_or "" (title a)) (get_or "" (description a))
    ∧ p_id p = (if truthy (get (url a))
                then Some (sha256_hexdigest (or_empty (get_or "" (url a))))
                else None).
Proof.
  intros Hshape Hfails.
  unfold process_article, summarize_article, newsapi_shaped in *.
  destruct (source a) as [| | |name]; try done; simpl;
    destruct Hfails as [[msg ->] | (answer & -> & ->)];
    eexists; split_and!; done.
Qed.

End EnrichmentFacts.

Lemma process_article_without_enrichment_witness :
  ∃ p, Processor.process_article toy_digest toy_json_loads env_offline
         sample_article = Ok p
    ∧ Processor.p_summary p = [] ∧ Processor.p_sentiment p = "neutral"
    ∧ Processor.p_importance p = "medium"
    ∧ Processor.p_category p
      = Processor.categorize_article (get_or "" (title sample_article))
          (get_or "" (description sample_article))
    ∧ Processor.p_id p
      = (if truthy (get (url sample_article))
         then Some (toy_digest (or_empty (get_or "" (url sample_article))))
         else None).
Proof.
  apply (process_article_without_enrichment toy_digest toy_json_loads
           env_offline sample_article).
  - exact I.
  - left. by exists "connection refused".
Defined.
